(** * SmartLipikor: the docx export service

    A shallow embedding of [src/services/exportService.ts]: the unit and
    token parsers, the per-character script classifier, the script
    segmentation loop of [createTextRunsFromSpans], the font resolution of
    [mapFontFamilyToDocx] and the table-cell builder of
    [createDocumentContent], then the two places of the docx library
    that decide what becomes of the options built there (the colour check
    and the row-span pass of the [Table] constructor), followed by the
    properties of the specification that concern them.

    Conventions of the embedding.
    - A JavaScript string is the list of its UTF-16 code units ([jsstring]);
      [s[i]], [s.length] and the regular expressions of the source (none
      carries the [u] flag) all work on code units.
    - A JavaScript [number] produced by arithmetic ([parseInt],
      [parseFloat], [*], [/], [Math.round]) is an IEEE 754 binary64 value,
      here [spec_float] with precision 53 and maximal exponent 1024.
    - The integer fields of the document model ([colSpan], [rowSpan],
      [fontWeight]) are carried as [Z].
    - An optional field, or an argument that may be [undefined], is an
      [option].
    - An error raised by a function of the docx library is [None]. *)

From Stdlib Require Import ZArith List Bool Lia String Ascii.
From Stdlib Require Import SpecFloat.
From Stdlib Require DecimalN DecimalPos.
Import ListNotations.

Local Open Scope Z_scope.

(* ================================================================== *)
(** * JavaScript strings *)

Module JS.

Definition codeunit := Z.
Definition jsstring := list codeunit.

(** The code units of an ASCII literal of the source. *)
Definition lit (s : string) : jsstring :=
  map (fun a => Z.of_N (N_of_ascii a)) (list_ascii_of_string s).

Fixpoint str_eqb (a b : jsstring) : bool :=
  match a, b with
  | [], [] => true
  | x :: a', y :: b' => (x =? y) && str_eqb a' b'
  | _, _ => false
  end.

(** [!s] on a string: only the empty string is falsy. *)
Definition truthy (s : jsstring) : bool :=
  match s with [] => false | _ :: _ => true end.

(** [o && ...] / [o || ...] on a value that may be [undefined]. *)
Definition truthyOpt (o : option jsstring) : bool :=
  match o with Some s => truthy s | None => false end.

(** [Array.prototype.includes] on an array of strings. *)
Definition includes (l : list jsstring) (s : jsstring) : bool :=
  existsb (str_eqb s) l.

Definition inRange (lo hi c : codeunit) : bool := (lo <=? c) && (c <=? hi).

(** The class [\d]. *)
Definition isDigit (c : codeunit) : bool := inRange 48 57 c.

(** The class [\s]: the WhiteSpace and LineTerminator code points of
    ECMAScript. *)
Definition isWhiteSpace (c : codeunit) : bool :=
  inRange 9 13 c || (c =? 32) || (c =? 160) || (c =? 5760)
  || inRange 8192 8202 c || (c =? 8232) || (c =? 8233) || (c =? 8239)
  || (c =? 8287) || (c =? 12288) || (c =? 65279).

(** [/[...]/.test(s)] for a pattern that is a single character class and
    carries no anchor: some code unit of [s] is in the class. *)
Definition testClass (cls : codeunit -> bool) (s : jsstring) : bool :=
  existsb cls s.

End JS.

Import JS.

(* ================================================================== *)
(** * Script detection utilities *)

Definition BENGALI_REGEX_CHAR (c : codeunit) : bool := inRange 0x0980 0x09FF c.

Definition ARABIC_REGEX_CHAR (c : codeunit) : bool :=
  inRange 0x0600 0x06FF c || inRange 0x0750 0x077F c || inRange 0x08A0 0x08FF c.

Definition LATIN_REGEX_CHAR (c : codeunit) : bool :=
  inRange 97 122 c || inRange 65 90 c.

Definition DIGIT_REGEX_CHAR (c : codeunit) : bool := inRange 48 57 c.

(** The class of [\s] and of the ASCII punctuation the source lists: the
    members are written in the order of the source, code unit 34 being the
    double quote that follows the apostrophe there. *)
Definition COMMON_PUNCT_SPACE_REGEX_CHAR (c : codeunit) : bool :=
  isWhiteSpace c
  || existsb (Z.eqb c) (lit ".,!?;:'" ++ [34] ++ lit "(){}[]-@#$%^&*+=_<>/\|~`").

Inductive ScriptType :=
  | bengali | arabic | latin | digit | punct_space | other.

Definition ScriptType_eqb (a b : ScriptType) : bool :=
  match a, b with
  | bengali, bengali | arabic, arabic | latin, latin
  | digit, digit | punct_space, punct_space | other, other => true
  | _, _ => false
  end.

Definition detectCharScript (char : jsstring) : ScriptType :=
  if testClass BENGALI_REGEX_CHAR char then bengali
  else if testClass ARABIC_REGEX_CHAR char then arabic
  else if testClass LATIN_REGEX_CHAR char then latin
  else if testClass DIGIT_REGEX_CHAR char then digit
  else if testClass COMMON_PUNCT_SPACE_REGEX_CHAR char then punct_space
  else other.

Inductive Language := en | bn | ar | unknown.

Definition Language_eqb (a b : Language) : bool :=
  match a, b with
  | en, en | bn, bn | ar, ar | unknown, unknown => true
  | _, _ => false
  end.

(* ================================================================== *)
(** * Script segmentation (the body of [createTextRunsFromSpans], per line) *)

Record Segment := { seg_text : jsstring; seg_script : ScriptType }.

(** The state of the [for] loop: the [segments] pushed so far, in push
    order, [currentSegmentText] and [currentSegmentScript]. *)
Record SegState := {
  segments : list Segment;
  currentSegmentText : jsstring;
  currentSegmentScript : ScriptType
}.

(** [if (currentSegmentText.length > 0) segments.push(...)]. *)
Definition pushCurrent (st : SegState) : list Segment :=
  if truthy (currentSegmentText st)
  then segments st ++ [{| seg_text := currentSegmentText st;
                          seg_script := currentSegmentScript st |}]
  else segments st.

(** One iteration of the loop, on the code unit [lineText[i]]. *)
Definition segStep (st : SegState) (c : codeunit) : SegState :=
  let charScript := detectCharScript [c] in
  let effectiveJoinScript :=
    if ScriptType_eqb charScript punct_space || ScriptType_eqb charScript digit
    then currentSegmentScript st
    else charScript in
  if ScriptType_eqb effectiveJoinScript (currentSegmentScript st)
  then {| segments := segments st;
          currentSegmentText := currentSegmentText st ++ [c];
          currentSegmentScript := currentSegmentScript st |}
  else {| segments := pushCurrent st;
          currentSegmentText := [c];
          currentSegmentScript := charScript |}.

(** The script the first run starts with. *)
Definition initialScript (blockLanguageFromAI : Language) (lineText : jsstring)
  : ScriptType :=
  let firstCharScript := detectCharScript (firstn 1 lineText) in
  if ScriptType_eqb firstCharScript punct_space
     || ScriptType_eqb firstCharScript other
     || ScriptType_eqb firstCharScript digit
  then
    if Language_eqb blockLanguageFromAI bn
       && negb (testClass LATIN_REGEX_CHAR lineText
                || testClass ARABIC_REGEX_CHAR lineText)
    then bengali
    else if Language_eqb blockLanguageFromAI ar
            && negb (testClass LATIN_REGEX_CHAR lineText
                     || testClass BENGALI_REGEX_CHAR lineText)
    then arabic
    else latin
  else firstCharScript.

(** The [segments] array once the line has been walked. *)
Definition scriptSegments (blockLanguageFromAI : Language) (lineText : jsstring)
  : list Segment :=
  if 0 <? Z.of_nat (List.length lineText)
  then
    pushCurrent
      (fold_left segStep lineText
         {| segments := [];
            currentSegmentText := [];
            currentSegmentScript := initialScript blockLanguageFromAI lineText |})
  else [].

(* ================================================================== *)
(** * JavaScript numbers *)

Module Num.

(** An IEEE 754 binary64 value. *)
Definition number := spec_float.

Definition prec : Z := 53.
Definition emax : Z := 1024.

(** The Number value for a mathematical integer: the nearest binary64
    value, ties to even, infinite from [2^1024] on. *)
Definition ofZ (z : Z) : number := binary_normalize prec emax z 0 false.

Definition mul (x y : number) : number := SFmul prec emax x y.
Definition div (x y : number) : number := SFdiv prec emax x y.

Definition isNaN (x : number) : bool :=
  match x with S754_nan => true | _ => false end.

(** [Math.round]: the integer nearest to [x], ties towards [+∞]; a result
    of zero keeps the sign of [x]. *)
Definition Math_round (x : number) : number :=
  match x with
  | S754_finite s m e =>
      if 0 <=? e then x
      else
        let twice := 2 * cond_Zopp s (Zpos m) + 2 ^ (- e) in
        binary_normalize prec emax (twice / 2 ^ (1 - e)) 0 s
  | _ => x
  end.

(** The value of a string of decimal digits, most significant first. *)
Definition digitsValue (ds : jsstring) : Z :=
  fold_left (fun acc c => 10 * acc + (c - 48)) ds 0.

(** The Number value for the decimal [n / 10^k], [0 <= n]: the nearest
    binary64 value of the exact quotient. *)
Definition ofDecimal (n : Z) (k : nat) : number :=
  match n with
  | Zpos p => SFdiv prec emax (S754_finite false p 0)
                (S754_finite false (Z.to_pos (10 ^ Z.of_nat k)) 0)
  | _ => S754_zero false
  end.

(** The longest prefix of [s] made of code units of the class. *)
Fixpoint spanClass (cls : codeunit -> bool) (s : jsstring) : jsstring * jsstring :=
  match s with
  | [] => ([], [])
  | c :: rest =>
      if cls c then let '(a, b) := spanClass cls rest in (c :: a, b)
      else ([], s)
  end.

(** [s] without its longest prefix made of code units of the class. *)
Fixpoint dropClass (cls : codeunit -> bool) (s : jsstring) : jsstring :=
  match s with
  | [] => []
  | c :: rest => if cls c then dropClass cls rest else s
  end.

(** [parseInt(s, 10)]: leading white space is skipped, one sign is read,
    then the longest prefix of decimal digits; [NaN] when there is none. *)
Definition parseInt (s : jsstring) : number :=
  let s1 := dropClass isWhiteSpace s in
  let '(neg, s2) :=
    match s1 with
    | c :: rest => if c =? 45 then (true, rest)
                   else if c =? 43 then (false, rest) else (false, s1)
    | [] => (false, s1)
    end in
  let '(ds, _) := spanClass isDigit s2 in
  match ds with
  | [] => S754_nan
  | _ :: _ => binary_normalize prec emax (cond_Zopp neg (digitsValue ds)) 0 neg
  end.

(** [parseFloat] on the strings the source hands to it from
    [parseUnitValueToTwips]: decimal digits, optionally followed by a dot
    and more digits. What follows the literal is ignored, and [NaN] is
    returned when the string does not start with a digit. *)
Definition parseFloat (s : jsstring) : number :=
  let '(ip, rest) := spanClass isDigit s in
  match ip with
  | [] => S754_nan
  | _ :: _ =>
      match rest with
      | c :: rest' =>
          if c =? 46 then
            let '(fp, _) := spanClass isDigit rest' in
            ofDecimal (digitsValue (ip ++ fp)) (List.length fp)
          else ofDecimal (digitsValue ip) 0
      | [] => ofDecimal (digitsValue ip) 0
      end
  end.

End Num.

Import Num.

(* ================================================================== *)
(** * Unit and token parsers *)

(** [s.match(/^pt(\d+)$/)]: the first capture group when the pattern
    matches. *)
Definition match_pt_digits (s : jsstring) : option jsstring :=
  match s with
  | p :: t :: rest =>
      if (p =? 112) && (t =? 116) && truthy rest && forallb isDigit rest
      then Some rest else None
  | _ => None
  end.

Definition parsePtStringToNumber (ptString : option jsstring) (defaultSize : number)
  : number :=
  match ptString with
  | None => defaultSize
  | Some s =>
      if negb (truthy s) then defaultSize
      else
        match match_pt_digits s with
        | Some m1 => if truthy m1 then parseInt m1 else defaultSize
        | None => defaultSize
        end
  end.

(** [s.match(/^(\d+(\.\d+)?)pt$/)]: the first capture group when the
    pattern matches. *)
Definition match_decimal_pt (s : jsstring) : option jsstring :=
  let '(ip, rest) := spanClass isDigit s in
  if negb (truthy ip) then None
  else if str_eqb rest (lit "pt") then Some ip
  else
    match rest with
    | c :: rest' =>
        if c =? 46 then
          let '(fp, rest'') := spanClass isDigit rest' in
          if truthy fp && str_eqb rest'' (lit "pt")
          then Some (ip ++ [46] ++ fp) else None
        else None
    | [] => None
    end.

Definition parseUnitValueToTwips (valueStr : option jsstring)
    (defaultTwipsIfUnparsable : number) : number :=
  match valueStr with
  | None => defaultTwipsIfUnparsable
  | Some s =>
      if negb (truthy s) then defaultTwipsIfUnparsable
      else if str_eqb s (lit "0") || str_eqb s (lit "0pt") then ofZ 0
      else
        match match_decimal_pt s with
        | Some m1 =>
            if truthy m1 then
              let points := parseFloat m1 in
              if negb (isNaN points) then Math_round (mul points (ofZ 20))
              else defaultTwipsIfUnparsable
            else defaultTwipsIfUnparsable
        | None => defaultTwipsIfUnparsable
        end
  end.

(** [s.match(/^pt\d+$/) !== null]. *)
Definition test_pt (s : jsstring) : bool :=
  match match_pt_digits s with Some _ => true | None => false end.

Inductive ParagraphAndHeadingBlockType :=
  | paragraph | heading1 | heading2 | heading3 | heading4 | heading5
  | heading6 | listItem.

(** The size of a run, in half-points. *)
Definition mapFontSizeToDocx (category : option jsstring)
    (blockType : option ParagraphAndHeadingBlockType) : number :=
  let ptSize := parsePtStringToNumber category (ofZ 11) in
  let ptSize :=
    match category, blockType with
    | Some c, Some bt =>
        if truthy c && negb (test_pt c)
        then match bt with
             | heading1 => ofZ 22
             | heading2 => ofZ 16
             | heading3 => ofZ 13
             | _ => ofZ 11
             end
        else ptSize
    | _, _ => ptSize
    end in
  mul ptSize (ofZ 2).

Inductive TextAlign := ta_left | ta_center | ta_right | ta_justify.

Inductive AlignmentType := LEFT | CENTER | RIGHT | BOTH.

Definition mapAlignmentToDocx (alignment : option TextAlign) : AlignmentType :=
  match alignment with
  | Some ta_left => LEFT
  | Some ta_center => CENTER
  | Some ta_right => RIGHT
  | Some ta_justify => BOTH
  | None => LEFT
  end.

(* ================================================================== *)
(** * Font resolution *)

Inductive FontFamilySuggestion :=
  | ff_default | ff_serif | ff_sans_serif | ff_monospace | ff_bengali
  | ff_arabic | ff_unknown.

Inductive TargetApplication := word | gdocs.

Definition commonArabicFonts : list jsstring :=
  [lit "Noto Naskh Arabic"; lit "Noto Sans Arabic"; lit "Cairo"; lit "Lateef";
   lit "Noto Kufi Arabic"; lit "Traditional Arabic"; lit "Arial Unicode MS"].

(** [o === 'literal'] for a value that may be [undefined]. *)
Definition isLit (o : option jsstring) (l : string) : bool :=
  match o with Some s => str_eqb s (lit l) | None => false end.

(** [hint && commonArabicFonts.includes(hint)]. *)
Definition isCommonArabicFont (o : option jsstring) : bool :=
  match o with
  | Some s => truthy s && includes commonArabicFonts s
  | None => false
  end.

Definition mapFontFamilyToDocx
    (_spanTextContentForRefOnly : jsstring)
    (detectedSegmentScript : ScriptType)
    (spanFontFamilyKeyFromAI : option jsstring)
    (_spanFontWeight : option Z)
    (_blockFontFamilySuggestionFromAI : option FontFamilySuggestion)
    (_blockLanguageFromAI : Language)
    (targetApplication : TargetApplication) : jsstring :=
  match targetApplication with
  | word =>
      match detectedSegmentScript with
      | bengali => lit "SutonnyOMJ"
      | latin | digit | punct_space => lit "Times New Roman"
      | arabic =>
          match spanFontFamilyKeyFromAI with
          | Some hint =>
              if isCommonArabicFont spanFontFamilyKeyFromAI then hint
              else if isLit spanFontFamilyKeyFromAI "arabic-naskh"
                      || isLit spanFontFamilyKeyFromAI "arabic"
              then lit "Traditional Arabic"
              else if isLit spanFontFamilyKeyFromAI "arabic-kufi"
              then lit "Traditional Arabic"
              else if isLit spanFontFamilyKeyFromAI "arabic-modern-sans"
              then lit "Arial"
              else lit "Traditional Arabic"
          | None => lit "Traditional Arabic"
          end
      | other => lit "Calibri"
      end
  | gdocs =>
      match detectedSegmentScript with
      | bengali => lit "Tiro Bangla"
      | latin | digit | punct_space => lit "Open Sans"
      | arabic =>
          match spanFontFamilyKeyFromAI with
          | Some hint =>
              if isCommonArabicFont spanFontFamilyKeyFromAI then hint
              else lit "Noto Naskh Arabic"
          | None => lit "Noto Naskh Arabic"
          end
      | other => lit "Open Sans"
      end
  end.

(* ================================================================== *)
(** * Styled runs *)

Inductive TextDecoration := td_none | td_underline | td_line_through.

(** The fields of a [TextSpan] that the export service reads. *)
Record TextSpan := {
  text : jsstring;
  isBold : option bool;
  isItalic : option bool;
  fontFamily : option jsstring;
  fontWeight : option Z;
  color : option jsstring;
  textDecoration : option TextDecoration
}.

Inductive UnderlineType := SINGLE.

(** The options a [TextRun] is built from, as the source hands them to
    [new TextRun]; an option the source does not set, or sets to
    [undefined], is [None]. What the constructor makes of the colours is
    [Docx.acceptsRun]. *)
Record TextRun := {
  run_break : option Z;
  run_text : option jsstring;
  run_bold : option bool;
  run_italics : option bool;
  run_font : option jsstring;
  run_size : option number;
  run_color : option jsstring;
  run_underline : option (UnderlineType * jsstring);
  run_strike : option bool
}.

Definition emptyRun : TextRun :=
  {| run_break := None; run_text := None; run_bold := None;
     run_italics := None; run_font := None; run_size := None;
     run_color := None; run_underline := None; run_strike := None |}.

(** [new TextRun({ break: 1 })]. *)
Definition breakRun : TextRun :=
  {| run_break := Some 1; run_text := None; run_bold := None;
     run_italics := None; run_font := None; run_size := None;
     run_color := None; run_underline := None; run_strike := None |}.

Definition mapTextDecorationToDocx (decoration : option TextDecoration)
  : option (UnderlineType * jsstring) * option bool :=
  match decoration with
  | Some td_underline => (Some (SINGLE, lit "auto"), None)
  | Some td_line_through => (None, Some true)
  | _ => (None, None)
  end.

Definition isHexDigit (c : codeunit) : bool :=
  inRange 48 57 c || inRange 65 70 c || inRange 97 102 c.

(** [/^#[0-9A-Fa-f]{lo,hi}$/.test(s)]. *)
Definition testHexColor (lo hi : Z) (s : jsstring) : bool :=
  match s with
  | c :: rest =>
      (c =? 35) && forallb isHexDigit rest
      && (lo <=? Z.of_nat (List.length rest))
      && (Z.of_nat (List.length rest) <=? hi)
  | [] => false
  end.

(** [s.replace("#", "")]: the first occurrence is removed. *)
Fixpoint removeFirstHash (s : jsstring) : jsstring :=
  match s with
  | [] => []
  | c :: rest => if c =? 35 then rest else c :: removeFirstHash rest
  end.

(** [originalText.split(/\\n|\n/g)]: the separators are the two code
    units backslash, [n] and the line feed. [cur] is the piece being
    read. *)
Fixpoint splitLines (s cur : jsstring) : list jsstring :=
  match s with
  | [] => [cur]
  | c :: rest =>
      if c =? 10 then cur :: splitLines rest []
      else
        match rest with
        | d :: rest' =>
            if (c =? 92) && (d =? 110) then cur :: splitLines rest' []
            else splitLines rest (cur ++ [c])
        | [] => [cur ++ [c]]
        end
  end.

Section Runs.

Variable defaultFontSizeCategoryForBlock : option jsstring.
Variable blockFontFamilySuggestionFromAI : option FontFamilySuggestion.
Variable blockLanguageFromAI : Language.
Variable targetApplication : TargetApplication.
Variable defaultBlockType : option ParagraphAndHeadingBlockType.

(** The run emitted for one segment of a line of [span]. *)
Definition segmentRun (span : TextSpan) (segment : Segment) : list TextRun :=
  if Z.of_nat (List.length (seg_text segment)) =? 0 then []
  else
    let decorationProps := mapTextDecorationToDocx (textDecoration span) in
    let spanColor :=
      match color span with
      | Some c =>
          if truthy c && negb (str_eqb c (lit "default"))
             && negb (str_eqb c (lit "inherit")) && testHexColor 3 8 c
          then Some (removeFirstHash c) else None
      | None => None
      end in
    [{| run_break := None;
        run_text := Some (seg_text segment);
        run_bold := Some match fontWeight span with
                         | Some w => if w =? 0 then
                                       match isBold span with
                                       | Some b => b | None => false end
                                     else 600 <=? w
                         | None => match isBold span with
                                   | Some b => b | None => false end
                         end;
        run_italics := isItalic span;
        run_font := Some (mapFontFamilyToDocx (seg_text segment)
                            (seg_script segment) (fontFamily span)
                            (fontWeight span) blockFontFamilySuggestionFromAI
                            blockLanguageFromAI targetApplication);
        run_size := Some (mapFontSizeToDocx defaultFontSizeCategoryForBlock
                            defaultBlockType);
        run_color := spanColor;
        run_underline := fst decorationProps;
        run_strike := snd decorationProps |}].

(** The runs of the line [lineText], the [lineIndex]-th of the
    [numLines] lines of [span]. *)
Definition lineRuns (span : TextSpan) (numLines : nat)
    (lineIndex : nat) (lineText : jsstring) : list TextRun :=
  let notLast := (Z.of_nat lineIndex <? Z.of_nat numLines - 1) in
  if negb (truthy lineText) && (1 <? Z.of_nat numLines)
  then (if notLast then [breakRun] else [])
  else
    flat_map (segmentRun span) (scriptSegments blockLanguageFromAI lineText)
    ++ (if notLast then [breakRun] else []).

(** [textLines.forEach((lineText, lineIndex) => ...)]. *)
Fixpoint linesRuns (span : TextSpan) (numLines : nat) (lineIndex : nat)
    (textLines : list jsstring) : list TextRun :=
  match textLines with
  | [] => []
  | lineText :: rest =>
      lineRuns span numLines lineIndex lineText
      ++ linesRuns span numLines (S lineIndex) rest
  end.

(** The runs pushed for one span. *)
Definition spanRuns (span : TextSpan) : list TextRun :=
  let textLines := splitLines (text span) [] in
  linesRuns span (List.length textLines) 0 textLines.

Definition createTextRunsFromSpans (spans : list TextSpan) : list TextRun :=
  flat_map spanRuns spans.

End Runs.

(* ================================================================== *)
(** * Table cells (the table branch of [createDocumentContent]) *)

(** The fields of a [TableCell] that the export service reads;
    [cell_language] is the [language] property the source looks up on a
    cell through a cast. *)
Record TableCell := {
  content : list TextSpan;
  colSpan : option Z;
  rowSpan : option Z;
  cell_alignment : option TextAlign;
  backgroundColor : option jsstring;
  cell_borderColor : option jsstring;
  cell_borderWidth : option jsstring;
  cell_fontSizeCategory : option jsstring;
  cell_fontFamilySuggestion : option FontFamilySuggestion;
  cell_language : option Language
}.

Record TableRow := { cells : list TableCell }.

Record FormattedTableBlock := {
  language : Language;
  rows : list TableRow;
  caption : option (list TextSpan);
  tableWidth : option jsstring;
  cellPadding : option jsstring;
  borderColor : option jsstring;
  borderWidth : option jsstring
}.

Record Paragraph := {
  par_children : list TextRun;
  par_alignment : AlignmentType
}.

Inductive VerticalMergeType := CONTINUE | RESTART.
Inductive BorderStyle := BS_SINGLE.
Inductive ShadingType := CLEAR.

Record Shading := {
  shading_type : ShadingType;
  shading_fill : jsstring;
  shading_color : jsstring
}.

Record Border := {
  border_style : BorderStyle;
  border_size : number;
  border_color : jsstring
}.

Record Borders := {
  border_top : Border;
  border_bottom : Border;
  border_left : Border;
  border_right : Border
}.

Record Margins := {
  margin_top : number;
  margin_bottom : number;
  margin_left : number;
  margin_right : number
}.

(** The options a docx [TableCell] is built from, as the source hands
    them to [new TableCell]. What the constructor makes of the colours is
    [Docx.acceptsCell]. *)
Record DocxTableCell := {
  children : list Paragraph;
  columnSpan : option Z;
  docx_rowSpan : option Z;
  verticalMerge : option VerticalMergeType;
  shading : option Shading;
  margins : Margins;
  borders : Borders
}.

Record DocxTableRow := { row_children : list DocxTableCell }.

(** [a || b] on values that may be [undefined]. *)
Definition jsOr (a b : option jsstring) : option jsstring :=
  if truthyOpt a then a else b.

(** [a || 'literal']. *)
Definition jsOrLit (a : option jsstring) (d : jsstring) : jsstring :=
  match a with
  | Some s => if truthy s then s else d
  | None => d
  end.

Section Table.

Variable tableBlock : FormattedTableBlock.
Variable targetApplication : TargetApplication.

Definition docxCell (cell : TableCell) : DocxTableCell :=
  let cellEffectiveLanguage :=
    match cell_language cell with
    | Some l => l
    | None => language tableBlock
    end in
  let cellFontFamilySuggestion := cell_fontFamilySuggestion cell in
  let cellFontSizeCategory := cell_fontSizeCategory cell in
  let cellContentRuns :=
    createTextRunsFromSpans cellFontSizeCategory cellFontFamilySuggestion
      cellEffectiveLanguage targetApplication None (content cell) in
  let cellParagraphs :=
    if 0 <? Z.of_nat (List.length cellContentRuns)
    then [{| par_children := cellContentRuns;
             par_alignment := mapAlignmentToDocx (cell_alignment cell) |}]
    else [{| par_children :=
               [{| run_break := None; run_text := Some [];
                   run_bold := None; run_italics := None; run_font := None;
                   run_size := Some (mapFontSizeToDocx cellFontSizeCategory None);
                   run_color := None; run_underline := None;
                   run_strike := None |}];
             par_alignment := mapAlignmentToDocx (cell_alignment cell) |}] in
  let shading :=
    match backgroundColor cell with
    | Some bg =>
        if truthy bg && testHexColor 3 6 bg
        then Some {| shading_type := CLEAR;
                     shading_fill := removeFirstHash bg;
                     shading_color := lit "auto" |}
        else None
    | None => None
    end in
  let borderStyle := BS_SINGLE in
  let borderSize :=
    div (parseUnitValueToTwips
           (Some (jsOrLit (jsOr (cell_borderWidth cell) (borderWidth tableBlock))
                          (lit "1pt")))
           (ofZ 20))
        (ofZ 20) in
  let borderColor :=
    removeFirstHash
      (jsOrLit (jsOr (cell_borderColor cell) (borderColor tableBlock))
               (lit "#000000")) in
  let edge := {| border_style := borderStyle; border_size := borderSize;
                 border_color := borderColor |} in
  {| children := cellParagraphs;
     columnSpan := colSpan cell;
     docx_rowSpan := rowSpan cell;
     verticalMerge :=
       match rowSpan cell with
       | Some n => if negb (n =? 0) && (1 <? n) then Some RESTART else None
       | None => None
       end;
     shading := shading;
     margins :=
       if truthyOpt (cellPadding tableBlock)
       then {| margin_top := parseUnitValueToTwips (cellPadding tableBlock) (ofZ 0);
               margin_bottom := parseUnitValueToTwips (cellPadding tableBlock) (ofZ 0);
               margin_left := parseUnitValueToTwips (cellPadding tableBlock) (ofZ 0);
               margin_right := parseUnitValueToTwips (cellPadding tableBlock) (ofZ 0) |}
       else {| margin_top := ofZ 80; margin_bottom := ofZ 80;
               margin_left := ofZ 80; margin_right := ofZ 80 |};
     borders := {| border_top := edge; border_bottom := edge;
                   border_left := edge; border_right := edge |} |}.

Definition docxCells (row : TableRow) : list DocxTableCell :=
  map docxCell (cells row).

(** The rows handed to [new Table({ rows: docxRows, ... })]. What the
    constructor makes of them is [Docx.rowSpanPass]. *)
Definition docxRows : list DocxTableRow :=
  map (fun row => {| row_children := docxCells row |}) (rows tableBlock).

End Table.

(* ================================================================== *)
(** * Decimal literals *)

Module JSFloat.

(** What follows the code units of [p] at the start of [s], when [s]
    starts with them. *)
Fixpoint stripPrefix (p s : jsstring) : option jsstring :=
  match p, s with
  | [], _ => Some s
  | x :: p', y :: s' => if x =? y then stripPrefix p' s' else None
  | _ :: _, [] => None
  end.

(** An optional sign: whether it is a minus, and what follows it. *)
Definition readSign (s : jsstring) : bool * jsstring :=
  match s with
  | c :: rest => if c =? 45 then (true, rest)
                 else if c =? 43 then (false, rest) else (false, s)
  | [] => (false, s)
  end.

(** The value of the exponent part [s] starts with: the letter [e] or
    [E], an optional sign and one digit or more; zero when [s] starts with
    no such part. *)
Definition readExponent (s : jsstring) : Z :=
  match s with
  | c :: rest =>
      if (c =? 101) || (c =? 69) then
        let '(neg, r) := readSign rest in
        let '(ds, _) := spanClass isDigit r in
        match ds with
        | [] => 0
        | _ :: _ => cond_Zopp neg (digitsValue ds)
        end
      else 0
  | [] => 0
  end.

(** The Number value for [n * 10^scale], [0 <= n], with the sign
    [neg]. *)
Definition scaled (neg : bool) (n scale : Z) : number :=
  match n with
  | Zpos p =>
      if 0 <? scale
      then binary_normalize prec emax (cond_Zopp neg (Zpos p * 10 ^ scale)) 0 neg
      else SFdiv prec emax (S754_finite neg p 0)
             (S754_finite false (Z.to_pos (10 ^ (- scale))) 0)
  | _ => S754_zero neg
  end.

(** [parseFloat(s)]: leading white space is skipped, then the longest
    prefix that is a decimal literal gives the value: a sign, then
    [Infinity], or digits with an optional fraction and an optional
    exponent; [NaN] when there is no such prefix. *)
Definition parseFloat (s : jsstring) : number :=
  let '(neg, s2) := readSign (dropClass isWhiteSpace s) in
  match stripPrefix (lit "Infinity") s2 with
  | Some _ => S754_infinity neg
  | None =>
      let '(ip, r1) := spanClass isDigit s2 in
      let '(fp, r2) :=
        match r1 with
        | c :: r => if c =? 46 then spanClass isDigit r else ([], r1)
        | [] => ([], r1)
        end in
      if truthy ip || truthy fp
      then scaled neg (digitsValue (ip ++ fp))
             (readExponent r2 - Z.of_nat (List.length fp))
      else S754_nan
  end.

(** [x > 0]. *)
Definition isPositive (x : number) : bool := SFltb (S754_zero false) x.

(** [s.endsWith(suffix)]. *)
Definition endsWith (s suffix : jsstring) : bool :=
  (List.length suffix <=? List.length s)%nat
  && str_eqb (skipn (List.length s - List.length suffix) s) suffix.

End JSFloat.

(* ================================================================== *)
(** * Paragraph blocks *)

Inductive HeadingLevel :=
  | HEADING_1 | HEADING_2 | HEADING_3 | HEADING_4 | HEADING_5 | HEADING_6.

Definition getHeadingLevelFromBlockType (blockType : ParagraphAndHeadingBlockType)
  : option HeadingLevel :=
  match blockType with
  | heading1 => Some HEADING_1
  | heading2 => Some HEADING_2
  | heading3 => Some HEADING_3
  | heading4 => Some HEADING_4
  | heading5 => Some HEADING_5
  | heading6 => Some HEADING_6
  | _ => None
  end.

Inductive LineRule := lr_auto | lr_exact.

Record LineSpacing := { lineRule : LineRule; line : number }.

(** The number the source writes [1.15]. *)
Definition num_1_15 : number := ofDecimal 115 2.

Definition getLineSpacing (lineHeightStr : option jsstring) (fontSizePt : number)
  : LineSpacing :=
  let auto :=
    {| lineRule := lr_auto;
       line := Math_round (mul (mul fontSizePt num_1_15) (ofZ 20)) |} in
  match lineHeightStr with
  | None => auto
  | Some s =>
      if negb (truthy s) || str_eqb s (lit "normal") then auto
      else
        let lhValue := JSFloat.parseFloat s in
        if negb (isNaN lhValue) && JSFloat.isPositive lhValue
        then {| lineRule := lr_exact;
                line := Math_round (mul (mul fontSizePt lhValue) (ofZ 20)) |}
        else auto
  end.

(** [blockType.startsWith('heading')]. *)
Definition startsWithHeading (blockType : ParagraphAndHeadingBlockType) : bool :=
  match blockType with
  | paragraph | listItem => false
  | _ => true
  end.

Record FormattedParagraphBlock := {
  par_language : Language;
  blockType : ParagraphAndHeadingBlockType;
  alignment : TextAlign;
  fontSizeCategory : jsstring;
  fontFamilySuggestion : FontFamilySuggestion;
  lineHeight : option jsstring;
  spaceAfter : option jsstring;
  spans : list TextSpan
}.

Inductive FormattedBlock :=
  | ParagraphBlock (paraBlock : FormattedParagraphBlock)
  | TableBlock (tableBlock : FormattedTableBlock).

Record Spacing := {
  spacing_after : number;
  spacing_line : number;
  spacing_lineRule : LineRule
}.

(** The options a [Paragraph] of the document body is built from; an
    option the source does not set is [None]. *)
Record BodyParagraph := {
  body_children : list TextRun;
  body_alignment : AlignmentType;
  body_heading : option HeadingLevel;
  body_spacing : option Spacing;
  body_style : option jsstring
}.

(** An element of the document body, by the options it is built from: a
    paragraph, or a table with the rows and the width in percent that are
    handed to [new Table]. The cells of the table that the constructor
    makes of these rows are [tableCells]. *)
Inductive BodyElement :=
  | BodyPar (p : BodyParagraph)
  | BodyTable (tableRows : list DocxTableRow) (widthPercent : number).

(** [new TextRun("")]. *)
Definition emptyTextRun : TextRun :=
  {| run_break := None; run_text := Some []; run_bold := None;
     run_italics := None; run_font := None; run_size := None;
     run_color := None; run_underline := None; run_strike := None |}.

Section Document.

Variable targetApplication : TargetApplication.

(** The paragraph branch of [createDocumentContent]. *)
Definition paragraphContent (paraBlock : FormattedParagraphBlock)
  : list BodyElement :=
  let currentFontSizePt :=
    parsePtStringToNumber (Some (fontSizeCategory paraBlock)) (ofZ 11) in
  let paragraphLineSpacing :=
    getLineSpacing (lineHeight paraBlock) currentFontSizePt in
  let isHeading := startsWithHeading (blockType paraBlock) in
  let defaultSpaceAfterTwips := if isHeading then ofZ 200 else ofZ 100 in
  let spaceAfterTwips :=
    parseUnitValueToTwips (spaceAfter paraBlock) defaultSpaceAfterTwips in
  let docxSpans :=
    createTextRunsFromSpans (Some (fontSizeCategory paraBlock))
      (Some (fontFamilySuggestion paraBlock)) (par_language paraBlock)
      targetApplication (Some (blockType paraBlock)) (spans paraBlock) in
  let headingLevel := getHeadingLevelFromBlockType (blockType paraBlock) in
  [BodyPar
     {| body_children :=
          if (0 <? List.length docxSpans)%nat then docxSpans else [emptyTextRun];
        body_alignment := mapAlignmentToDocx (Some (alignment paraBlock));
        body_heading := headingLevel;
        body_spacing :=
          Some {| spacing_after := spaceAfterTwips;
                  spacing_line := line paragraphLineSpacing;
                  spacing_lineRule := lineRule paragraphLineSpacing |};
        body_style :=
          match headingLevel with
          | Some _ => None
          | None => Some (lit "NormalParcelStyle")
          end |}].

(** The table branch of [createDocumentContent]: the caption paragraph,
    when there is a caption, then the table. *)
Definition tableContent (tableBlock : FormattedTableBlock) : list BodyElement :=
  let tableWidthPercent :=
    match tableWidth tableBlock with
    | Some w => if JSFloat.endsWith w (lit "%") then JSFloat.parseFloat w
                else ofZ 100
    | None => ofZ 100
    end in
  let captionParagraphs :=
    match caption tableBlock with
    | Some cap =>
        if (0 <? List.length cap)%nat
        then
          let captionRuns :=
            createTextRunsFromSpans (Some (lit "pt10")) (Some ff_sans_serif)
              (language tableBlock) targetApplication None cap in
          [BodyPar {| body_children := captionRuns;
                      body_alignment := CENTER;
                      body_heading := None;
                      body_spacing := None;
                      body_style := Some (lit "Caption") |}]
        else []
    | None => []
    end in
  captionParagraphs
  ++ [BodyTable (docxRows tableBlock targetApplication) tableWidthPercent].

Definition createDocumentContent (blocks : list FormattedBlock)
  : list BodyElement :=
  flat_map (fun block =>
              match block with
              | TableBlock tableBlock => tableContent tableBlock
              | ParagraphBlock paraBlock => paragraphContent paraBlock
              end) blocks.

End Document.

(* ================================================================== *)
(** * The style registry of [generateDocx] *)

Record ParagraphStyle := {
  style_id : jsstring;
  style_name : jsstring;
  style_basedOn : jsstring;
  style_next : jsstring;
  style_quickFormat : option bool;
  style_font : jsstring;
  style_size : number;
  style_bold : option bool;
  style_italics : option bool;
  style_alignment : option AlignmentType;
  style_before : option number;
  style_after : option number;
  style_line : option LineSpacing
}.

Definition headingStyle (target_baseFont : jsstring) (id name category : string)
    (bt : ParagraphAndHeadingBlockType) (before : Z) (lh : string) (pt : Z)
  : ParagraphStyle :=
  {| style_id := lit id; style_name := lit name;
     style_basedOn := lit "Normal"; style_next := lit "NormalParcelStyle";
     style_quickFormat := Some true;
     style_font := target_baseFont;
     style_size := mapFontSizeToDocx (Some (lit category)) (Some bt);
     style_bold := Some true; style_italics := None;
     style_alignment := None;
     style_before := Some (ofZ before);
     style_after := Some (parseUnitValueToTwips None (ofZ before));
     style_line := Some (getLineSpacing (Some (lit lh)) (ofZ pt)) |}.

(** [baseFont] of [generateDocx]. *)
Definition baseFont (targetApplication : TargetApplication) : jsstring :=
  match targetApplication with
  | word => lit "Calibri"
  | gdocs => lit "Open Sans"
  end.

(** [baseFontSizeHalfPoints] of [generateDocx]. *)
Definition baseFontSizeHalfPoints : number :=
  mapFontSizeToDocx (Some (lit "pt11")) None.

(** [styles.paragraphStyles] of the document [generateDocx] builds. *)
Definition paragraphStyles (targetApplication : TargetApplication)
  : list ParagraphStyle :=
  let f := baseFont targetApplication in
  [ {| style_id := lit "NormalParcelStyle"; style_name := lit "Normal Parcel";
       style_basedOn := lit "Normal"; style_next := lit "Normal";
       style_quickFormat := Some true; style_font := f;
       style_size := baseFontSizeHalfPoints;
       style_bold := None; style_italics := None; style_alignment := None;
       style_before := None; style_after := None; style_line := None |};
    {| style_id := lit "Caption"; style_name := lit "Caption";
       style_basedOn := lit "Normal"; style_next := lit "NormalParcelStyle";
       style_quickFormat := None; style_font := f;
       style_size := ofZ 18;
       style_bold := None; style_italics := Some true;
       style_alignment := Some CENTER;
       style_before := None; style_after := Some (ofZ 120);
       style_line := None |};
    headingStyle f "Heading1" "Heading 1" "pt22" heading1 240 "1.2" 22;
    headingStyle f "Heading2" "Heading 2" "pt16" heading2 220 "1.2" 16;
    headingStyle f "Heading3" "Heading 3" "pt13" heading3 200 "1.3" 13;
    headingStyle f "Heading4" "Heading 4" "pt11" heading4 180 "1.4" 11;
    headingStyle f "Heading5" "Heading 5" "pt10" heading5 160 "1.4" 10;
    headingStyle f "Heading6" "Heading 6" "pt9" heading6 140 "1.5" 9 ].


(* ================================================================== *)
(** * The docx library

    The export service hands the options above to the constructors of
    the docx library ([new TextRun], [new TableCell], [new Table]), a
    dependency of the repository whose source is not part of it. Two
    things the constructors do with these options decide what
    [createTextRunsFromSpans] and [createDocumentContent] return; they
    are modelled here after the functions of the library that carry the
    same names: the check every colour goes through, and the pass of the
    [Table] constructor that puts a continuation cell below every cell
    that spans rows. *)

Module Docx.

(** [hexColorValue(val)]: the value [auto] is kept as it is; otherwise
    one leading hash sign is dropped, and what is left has to be six
    code units long and has to be read by [Number], after the prefix
    [0x], as a number: hexadecimal digits, at least one, with nothing but
    white space behind them. [None] stands for the error the function
    raises. *)
Definition hexColorValue (val : jsstring) : option jsstring :=
  if str_eqb val (lit "auto") then Some val
  else
    let color :=
      match val with
      | c :: rest => if c =? 35 then rest else val
      | [] => val
      end in
    let '(digits, rest) := spanClass isHexDigit color in
    if negb (Z.of_nat (List.length color) =? 6)
       || negb (truthy digits && forallb isWhiteSpace rest)
    then None
    else Some color.

(** A colour option passes the check; an option that is not set is not
    checked. *)
Definition acceptsColor (color : option jsstring) : bool :=
  match color with
  | Some val => match hexColorValue val with Some _ => true | None => false end
  | None => true
  end.

(** [new TextRun] checks the colour of the run and the colour of its
    underline. *)
Definition acceptsRun (run : TextRun) : bool :=
  acceptsColor (run_color run)
  && acceptsColor (option_map snd (run_underline run)).

(** A cell is built: its runs pass the check of [new TextRun], made
    when the runs are built, and [new TableCell] accepts the fill and the
    colour of the shading and the colour of each border. *)
Definition acceptsCell (options : DocxTableCell) : bool :=
  forallb (fun p => forallb acceptsRun (par_children p)) (children options)
  && match shading options with
     | Some s => acceptsColor (Some (shading_fill s))
                 && acceptsColor (Some (shading_color s))
     | None => true
     end
  && forallb (fun edge => acceptsColor (Some (border_color edge)))
       [border_top (borders options); border_bottom (borders options);
        border_left (borders options); border_right (borders options)].

(** A cell of a table as the [Table] constructor holds it: a cell built
    from the options of [createDocumentContent], or a cell the
    constructor adds below a cell that spans rows. A cell of the second
    kind has no content and carries the vertical merge [CONTINUE]; of its
    options the pass reads the row span that is left and the column
    span, which is the one of the cell above. *)
Inductive TableCell :=
  | Built (options : DocxTableCell)
  | Continuation (rowSpan : Z) (columnSpan : option Z).


Definition columnSpanOf (cell : TableCell) : option Z :=
  match cell with
  | Built options => columnSpan options
  | Continuation _ n => n
  end.


(** [cell.options.columnSpan || 1]. *)
Definition spanOf (cell : TableCell) : Z :=
  match columnSpanOf cell with
  | Some n => if n =? 0 then 1 else n
  | None => 1
  end.









End Docx.

(* ================================================================== *)
(** * Notions used by the properties *)

(** A script class that a run may carry: not one of the two neutral
    classes. *)
Definition runScript (s : ScriptType) : Prop :=
  s = bengali \/ s = arabic \/ s = latin \/ s = other.

(** A neutral code unit (white space or punctuation) or a digit. *)
Definition neutralOrDigit (c : codeunit) : Prop :=
  COMMON_PUNCT_SPACE_REGEX_CHAR c = true \/ DIGIT_REGEX_CHAR c = true.

(** Everything read so far: the pushed texts followed by the open one. *)
Definition readSoFar (st : SegState) : jsstring :=
  List.concat (map seg_text (segments st)) ++ currentSegmentText st.

(** No two neighbours of the list carry the same script class. *)
Fixpoint adjacentDistinct (l : list Segment) : Prop :=
  match l with
  | a :: (b :: _) as t => seg_script a <> seg_script b /\ adjacentDistinct t
  | _ => True
  end.

(** The script class of the segment pushed last. *)
Definition lastScript (l : list Segment) : option ScriptType :=
  match rev l with
  | s :: _ => Some (seg_script s)
  | [] => None
  end.

(** What the loop maintains: the pushed segments are non-empty, pairwise
    distinct at their borders and free of neutral classes; the open
    segment carries a script other than the last pushed one and no
    neutral class; and nothing is pushed before the open segment holds a
    character. *)
Record segInv (st : SegState) : Prop := {
  inv_nonempty : Forall (fun s => seg_text s <> []) (segments st);
  inv_distinct : adjacentDistinct (segments st);
  inv_last : lastScript (segments st) <> Some (currentSegmentScript st);
  inv_open : currentSegmentText st = [] -> segments st = [];
  inv_pushed : Forall (fun s => runScript (seg_script s)) (segments st);
  inv_current : runScript (currentSegmentScript st)
}.

(** Settles the comparisons of a goal that linear arithmetic decides. *)
Ltac decide_tests :=
  repeat match goal with
         | |- context [?a =? ?b] =>
             replace (a =? b) with false by (symmetry; apply Z.eqb_neq; lia)
         | |- context [?a <=? ?b] =>
             first [ replace (a <=? b) with false
                       by (symmetry; apply Z.leb_gt; lia)
                   | replace (a <=? b) with true
                       by (symmetry; apply Z.leb_le; lia) ]
         end.

(** The line [Price: 100Tk ৫০০]; its last three code units are the
    Bengali digits five, zero, zero. *)
Definition price_line : jsstring :=
  lit "Price: 100Tk " ++ [0x09EB; 0x09E6; 0x09E6].

(** The curated font names the source knows for a script: the list
    [commonArabicFonts] for Arabic; it keeps no such list for any other
    script. *)
Definition curatedFonts (s : ScriptType) : list jsstring :=
  match s with
  | arabic => commonArabicFonts
  | _ => []
  end.

(** The author's hint is one of the curated names of the script. *)
Definition hintIsCurated (s : ScriptType) (hint : option jsstring) : bool :=
  match hint with
  | Some h => includes (curatedFonts s) h
  | None => false
  end.

(** The font a profile gives a script class when the author gives no
    hint. *)
Definition profileDefaultFont (target : TargetApplication) (s : ScriptType)
  : jsstring :=
  mapFontFamilyToDocx [] s None None None unknown target.

(** A cell holding one unstyled span, with the given row span and no
    override. *)
Definition plainCell (t : string) (span : option Z) : TableCell :=
  {| content := [ {| text := lit t; isBold := None; isItalic := None;
                     fontFamily := None; fontWeight := None; color := None;
                     textDecoration := None |} ];
     colSpan := None; rowSpan := span; cell_alignment := None;
     backgroundColor := None; cell_borderColor := None;
     cell_borderWidth := None; cell_fontSizeCategory := None;
     cell_fontFamilySuggestion := None; cell_language := None |}.




(** The number of columns the cells take up. *)
Definition rowWidth (cells : list Docx.TableCell) : Z :=
  fold_right (fun cell width => Docx.spanOf cell + width) 0 cells.










(** First present wins: the first level that gives a token, or the
    document default when none does. A token is present when it is
    defined and is not the empty string. *)
Fixpoint firstPresent (levels : list (option jsstring))
    (documentDefault : jsstring) : jsstring :=
  match levels with
  | [] => documentDefault
  | Some s :: rest =>
      if truthy s then s else firstPresent rest documentDefault
  | None :: rest => firstPresent rest documentDefault
  end.

(** The four edges of a cell. *)
Definition edges (b : Borders) : list Border :=
  [border_top b; border_bottom b; border_left b; border_right b].

(** The integer a number stands for, when it stands for one. *)
Definition toZ (x : number) : option Z :=
  match x with
  | S754_zero _ => Some 0
  | S754_finite s m e =>
      if 0 <=? e then Some (cond_Zopp s (Zpos m) * 2 ^ e)
      else if Zpos m mod 2 ^ (- e) =? 0
           then Some (cond_Zopp s (Zpos m / 2 ^ (- e)))
           else None
  | _ => None
  end.

(** The code units of a decimal numeral. *)
Fixpoint uintCodes (d : Decimal.uint) : jsstring :=
  match d with
  | Decimal.Nil => []
  | Decimal.D0 d => 48 :: uintCodes d
  | Decimal.D1 d => 49 :: uintCodes d
  | Decimal.D2 d => 50 :: uintCodes d
  | Decimal.D3 d => 51 :: uintCodes d
  | Decimal.D4 d => 52 :: uintCodes d
  | Decimal.D5 d => 53 :: uintCodes d
  | Decimal.D6 d => 54 :: uintCodes d
  | Decimal.D7 d => 55 :: uintCodes d
  | Decimal.D8 d => 56 :: uintCodes d
  | Decimal.D9 d => 57 :: uintCodes d
  end.

(** The decimal digits of a natural number, without leading zeros. *)
Definition decimalDigits (n : Z) : jsstring :=
  uintCodes (N.to_uint (Z.to_N n)).

(** A token of the form [pt<N>]: the two letters, then one decimal digit
    or more. *)
Definition isPointToken (s : jsstring) : Prop :=
  exists ds, ds <> [] /\ Forall (fun c => 48 <= c <= 57) ds /\ s = lit "pt" ++ ds.

(** A code unit that may sit in a run of script [s]: one the classifier
    gives the class [s], or a digit, or a neutral one. *)
Definition fitsScript (s : ScriptType) (c : codeunit) : Prop :=
  detectCharScript [c] = s
  \/ detectCharScript [c] = digit
  \/ detectCharScript [c] = punct_space.

(** The segment opens with a code unit of its own script class. *)
Definition opensWithOwnScript (seg : Segment) : Prop :=
  exists c t, seg_text seg = c :: t /\ detectCharScript [c] = seg_script seg.

(** The script that neutral text is given under a declared language. *)
Definition declaredScript (lang : Language) : ScriptType :=
  match lang with
  | bn => bengali
  | ar => arabic
  | _ => latin
  end.

(** What the loop maintains beyond [segInv]: every segment holds only
    code units that fit its script, and every segment after the first
    opens with a code unit of its own script. *)
Record shapeInv (st : SegState) : Prop := {
  shape_pushed :
    Forall (fun seg => Forall (fitsScript (seg_script seg)) (seg_text seg))
           (segments st);
  shape_current : Forall (fitsScript (currentSegmentScript st))
                         (currentSegmentText st);
  shape_opens : Forall opensWithOwnScript (tl (segments st));
  shape_open_current :
    segments st <> [] ->
    opensWithOwnScript {| seg_text := currentSegmentText st;
                          seg_script := currentSegmentScript st |}
}.

(** The string holds a separator of the line split: a line feed, or a
    backslash followed by the letter [n]. *)
Fixpoint hasSeparator (p : jsstring) : bool :=
  match p with
  | [] => false
  | c :: rest =>
      (c =? 10)
      || match rest with
         | d :: _ => (c =? 92) && (d =? 110)
         | [] => false
         end
      || hasSeparator rest
  end.

(** The last code unit of the string is a backslash. *)
Fixpoint endsWithBackslash (p : jsstring) : bool :=
  match p with
  | [] => false
  | c :: rest =>
      match rest with
      | [] => c =? 92
      | _ :: _ => endsWithBackslash rest
      end
  end.

(** The lines put together again, a line feed between two of them. *)
Fixpoint joinLines (pieces : list jsstring) : jsstring :=
  match pieces with
  | [] => []
  | p :: rest =>
      match rest with
      | [] => p
      | _ :: _ => p ++ 10 :: joinLines rest
      end
  end.



Definition isBreakRun (r : TextRun) : bool :=
  match run_break r with Some _ => true | None => false end.

(** The fonts a profile names of its own. *)
Definition profileFonts (target : TargetApplication) : list jsstring :=
  match target with
  | word => [lit "SutonnyOMJ"; lit "Times New Roman"; lit "Traditional Arabic";
             lit "Arial"; lit "Calibri"]
  | gdocs => [lit "Tiro Bangla"; lit "Open Sans"; lit "Noto Naskh Arabic"]
  end.

(** A hexadecimal digit. *)
Definition hexDigit (c : codeunit) : Prop :=
  48 <= c <= 57 \/ 65 <= c <= 70 \/ 97 <= c <= 102.

(** A hash sign followed by [lo] to [hi] hexadecimal digits, the digits
    being [ds]. *)
Definition hexColor (lo hi : nat) (s ds : jsstring) : Prop :=
  s = 35 :: ds /\ (lo <= List.length ds <= hi)%nat /\ Forall hexDigit ds.

(** A string of one decimal digit or more. *)
Definition digitString (ds : jsstring) : Prop :=
  ds <> [] /\ Forall (fun c => 48 <= c <= 57) ds.

(** A length in points: digits, an optional fraction, then [pt]. *)
Definition isPointLength (s : jsstring) : Prop :=
  exists ip,
    digitString ip
    /\ (s = ip ++ lit "pt"
        \/ exists fp, digitString fp /\ s = ip ++ 46 :: fp ++ lit "pt").



(** The style a body element refers to is one the registry defines. *)
Definition styleDefined (target : TargetApplication) (e : BodyElement) : Prop :=
  match e with
  | BodyPar p =>
      match body_style p with
      | Some id => In id (map style_id (paragraphStyles target))
      | None => True
      end
  | BodyTable _ _ => True
  end.



(* ================================================================== *)
(** * Properties *)

(** ** Strings and script classes *)

Lemma str_eqb_refl (a : jsstring) : str_eqb a a = true.
Proof.
  induction a as [|x a IH]; simpl; [reflexivity|].
  now rewrite Z.eqb_refl, IH.
Qed.

Lemma str_eqb_eq (a b : jsstring) : str_eqb a b = true <-> a = b.
Proof.
  split.
  - revert b; induction a as [|x a IH]; intros [|y b]; simpl;
      try discriminate; [reflexivity|].
    intros H. apply andb_true_iff in H as [Hxy Hab].
    apply Z.eqb_eq in Hxy. now rewrite Hxy, (IH b Hab).
  - intros ->. apply str_eqb_refl.
Qed.

Lemma includes_In (l : list jsstring) (s : jsstring) :
  includes l s = true <-> In s l.
Proof.
  unfold includes. rewrite existsb_exists. split.
  - intros [x [Hin Hx]]. apply str_eqb_eq in Hx. now subst.
  - intros Hin. exists s. split; [assumption | apply str_eqb_refl].
Qed.

Lemma ScriptType_eqb_eq (a b : ScriptType) : ScriptType_eqb a b = true <-> a = b.
Proof. destruct a, b; simpl; split; congruence. Qed.

Lemma ScriptType_eqb_neq (a b : ScriptType) : ScriptType_eqb a b = false <-> a <> b.
Proof. destruct a, b; simpl; split; congruence. Qed.

Lemma runScript_not_neutral (s : ScriptType) :
  runScript s <-> s <> digit /\ s <> punct_space.
Proof.
  unfold runScript. destruct s; split; intros H;
    repeat match goal with
           | H : _ \/ _ |- _ => destruct H
           | H : _ /\ _ |- _ => destruct H
           end;
    try discriminate; try congruence;
    try (split; discriminate); auto.
Qed.

(** ** The segmentation loop *)

Lemma concat_pushCurrent (st : SegState) :
  List.concat (map seg_text (pushCurrent st)) = readSoFar st.
Proof.
  unfold pushCurrent, readSoFar.
  destruct (currentSegmentText st) as [|c t]; simpl.
  - now rewrite app_nil_r.
  - rewrite map_app, List.concat_app. simpl. now rewrite app_nil_r.
Qed.

Lemma readSoFar_segStep (st : SegState) (c : codeunit) :
  readSoFar (segStep st c) = readSoFar st ++ [c].
Proof.
  unfold segStep.
  destruct (ScriptType_eqb _ (currentSegmentScript st)).
  - unfold readSoFar. simpl. now rewrite app_assoc.
  - unfold readSoFar at 1. simpl. now rewrite concat_pushCurrent.
Qed.

Lemma readSoFar_fold (l : jsstring) (st : SegState) :
  readSoFar (fold_left segStep l st) = readSoFar st ++ l.
Proof.
  revert st. induction l as [|c l IH]; intros st; simpl.
  - now rewrite app_nil_r.
  - rewrite IH, readSoFar_segStep, <- app_assoc. reflexivity.
Qed.

Lemma lastScript_snoc (l : list Segment) (x : Segment) :
  lastScript (l ++ [x]) = Some (seg_script x).
Proof. unfold lastScript. now rewrite rev_app_distr. Qed.

Lemma lastScript_cons (a b : Segment) (l : list Segment) :
  lastScript (a :: b :: l) = lastScript (b :: l).
Proof.
  unfold lastScript. simpl.
  destruct (rev l ++ [b]) as [|y r] eqn:E.
  - now destruct (rev l).
  - reflexivity.
Qed.

Lemma adjacentDistinct_snoc (l : list Segment) (x : Segment) :
  adjacentDistinct l ->
  lastScript l <> Some (seg_script x) ->
  adjacentDistinct (l ++ [x]).
Proof.
  induction l as [|a [|b l] IH]; intros Hl Hlast.
  - exact I.
  - simpl. split; [|exact I].
    intros E. apply Hlast. unfold lastScript. simpl. now rewrite E.
  - destruct Hl as [Hab Hl]. split; [exact Hab|].
    apply IH; [exact Hl|]. now rewrite <- lastScript_cons with (a := a).
Qed.

Lemma pushCurrent_ok (st : SegState) :
  segInv st ->
  Forall (fun s => seg_text s <> []) (pushCurrent st)
  /\ adjacentDistinct (pushCurrent st)
  /\ Forall (fun s => runScript (seg_script s)) (pushCurrent st).
Proof.
  intros [Hne Hd Hl Ho Hp Hc]. unfold pushCurrent.
  destruct (currentSegmentText st) as [|c t] eqn:E; simpl.
  - auto.
  - repeat split.
    + apply Forall_app. split; [exact Hne|]. constructor; [|constructor].
      simpl. discriminate.
    + apply adjacentDistinct_snoc; assumption.
    + apply Forall_app. split; [exact Hp|]. constructor; [|constructor].
      exact Hc.
Qed.

Lemma segStep_inv (st : SegState) (c : codeunit) :
  segInv st -> segInv (segStep st c).
Proof.
  intros Hinv. pose proof Hinv as [Hne Hd Hl Ho Hp Hc]. unfold segStep.
  destruct (ScriptType_eqb _ (currentSegmentScript st)) eqn:Ejoin.
  - constructor; simpl; try assumption.
    intros E. now apply app_eq_nil in E as [_ E].
  - assert (Hneq : detectCharScript [c] <> currentSegmentScript st
                   /\ runScript (detectCharScript [c])).
    { apply ScriptType_eqb_neq in Ejoin.
      destruct (detectCharScript [c]); simpl in Ejoin;
        try (now exfalso; apply Ejoin);
        (split; [exact Ejoin | unfold runScript; auto]). }
    destruct Hneq as [Hneq Hrun].
    destruct (pushCurrent_ok st Hinv) as [Hne' [Hd' Hp']].
    constructor; simpl; try assumption.
    + unfold pushCurrent.
      destruct (currentSegmentText st) as [|c' t] eqn:E; simpl.
      * rewrite (Ho eq_refl). unfold lastScript. simpl. discriminate.
      * rewrite lastScript_snoc. simpl. congruence.
    + discriminate.
Qed.

Lemma fold_segStep_inv (l : jsstring) (st : SegState) :
  segInv st -> segInv (fold_left segStep l st).
Proof.
  revert st. induction l as [|c l IH]; intros st H; simpl.
  - exact H.
  - apply IH, segStep_inv, H.
Qed.

Lemma initialScript_runScript (lang : Language) (lineText : jsstring) :
  runScript (initialScript lang lineText).
Proof.
  unfold initialScript, runScript.
  destruct (detectCharScript (firstn 1 lineText)); simpl; auto;
    repeat match goal with
           | |- context [if ?b then _ else _] => destruct b
           end; auto.
Qed.

Lemma initial_inv (lang : Language) (lineText : jsstring) :
  segInv {| segments := []; currentSegmentText := [];
            currentSegmentScript := initialScript lang lineText |}.
Proof.
  constructor; simpl; auto.
  - unfold lastScript. simpl. discriminate.
  - apply initialScript_runScript.
Qed.

Section Segmentation.

Variable blockLanguageFromAI : Language.
Variable lineText : jsstring.

(** C4. Script segmentation is a lossless, order-preserving partition:
    the texts of the sub-runs, concatenated in the order they are
    returned, give back the line, the empty line included. *)
Theorem segmentation_lossless :
  List.concat (map seg_text (scriptSegments blockLanguageFromAI lineText)) = lineText.
Proof.
  unfold scriptSegments.
  destruct lineText as [|c l] eqn:E; [reflexivity|].
  replace (0 <? Z.of_nat (List.length (c :: l))) with true
    by (symmetry; apply Z.ltb_lt; simpl; lia).
  rewrite concat_pushCurrent, readSoFar_fold. reflexivity.
Qed.

(** C5. The segmentation is minimal: no two adjacent sub-runs carry the
    same script class, and every sub-run has a non-empty text. *)
Theorem segmentation_minimal :
  adjacentDistinct (scriptSegments blockLanguageFromAI lineText)
  /\ Forall (fun s => seg_text s <> []) (scriptSegments blockLanguageFromAI lineText).
Proof.
  unfold scriptSegments.
  destruct (0 <? Z.of_nat (List.length lineText)).
  - destruct (pushCurrent_ok _
                (fold_segStep_inv lineText _
                   (initial_inv blockLanguageFromAI lineText)))
      as [Hne [Hd _]].
    split; assumption.
  - split; [exact I | constructor].
Qed.


End Segmentation.

(** ** What font selection is handed *)

Lemma scriptSegments_runScript (lang : Language) (lineText : jsstring) :
  Forall (fun s => runScript (seg_script s)) (scriptSegments lang lineText).
Proof.
  unfold scriptSegments.
  destruct (0 <? Z.of_nat (List.length lineText)); [|constructor].
  apply (pushCurrent_ok _
           (fold_segStep_inv lineText _ (initial_inv lang lineText))).
Qed.

(** Every run of a span is a line break or the run of a segment of one of
    its lines. *)
Lemma In_linesRuns size suggestion lang target blockType
    (span : TextSpan) (numLines : nat) (run : TextRun)
    (textLines : list jsstring) (lineIndex : nat) :
  In run (linesRuns size suggestion lang target blockType span numLines
            lineIndex textLines) ->
  run = breakRun
  \/ exists lineText segment,
       In segment (scriptSegments lang lineText)
       /\ In run (segmentRun size suggestion lang target blockType span segment).
Proof.
  revert lineIndex. induction textLines as [|lineText rest IH];
    intros lineIndex; simpl; [intros []|].
  rewrite in_app_iff. intros [H|H]; [|exact (IH _ H)].
  unfold lineRuns in H.
  assert (Hb : forall b : bool, In run (if b then [breakRun] else []) ->
                                run = breakRun).
  { intros [|] Hin; simpl in Hin; [|contradiction].
    destruct Hin as [<-|[]]. reflexivity. }
  destruct (negb (truthy lineText) && (1 <? Z.of_nat numLines)).
  - left. exact (Hb _ H).
  - apply in_app_iff in H as [H|H]; [|left; exact (Hb _ H)].
    apply in_flat_map in H as [segment [Hs Hr]].
    right. exists lineText, segment. split; assumption.
Qed.

Section Selection.

Variable defaultFontSizeCategoryForBlock : option jsstring.
Variable blockFontFamilySuggestionFromAI : option FontFamilySuggestion.
Variable blockLanguageFromAI : Language.
Variable targetApplication : TargetApplication.
Variable defaultBlockType : option ParagraphAndHeadingBlockType.

(** C10. No sub-run of the segmentation carries the class [digit] or
    [punct_space]: its class is [bengali], [arabic], [latin] or [other].
    Hence every run that [createTextRunsFromSpans] emits is a line break
    or gets its font from [mapFontFamilyToDocx] called on one of these
    four classes. *)
Theorem segmentation_no_neutral_run :
  (forall lineText,
     Forall (fun s => seg_script s <> digit /\ seg_script s <> punct_space
                      /\ runScript (seg_script s))
            (scriptSegments blockLanguageFromAI lineText))
  /\ (forall spans,
        Forall (fun run =>
                  run = breakRun
                  \/ exists txt script hint weight,
                       runScript script
                       /\ run_font run
                          = Some (mapFontFamilyToDocx txt script hint weight
                                    blockFontFamilySuggestionFromAI
                                    blockLanguageFromAI targetApplication))
               (createTextRunsFromSpans defaultFontSizeCategoryForBlock
                  blockFontFamilySuggestionFromAI blockLanguageFromAI
                  targetApplication defaultBlockType spans)).
Proof.
  split.
  - intros lineText.
    eapply Forall_impl; [|apply scriptSegments_runScript].
    intros s Hs. simpl.
    pose proof (proj1 (runScript_not_neutral _) Hs) as [? ?]. auto.
  - intros spans. apply Forall_forall. intros run Hin.
    unfold createTextRunsFromSpans in Hin.
    apply in_flat_map in Hin as [span [_ Hin]]. unfold spanRuns in Hin.
    apply In_linesRuns in Hin as [->|[lineText [segment [Hs Hr]]]];
      [now left|right].
    unfold segmentRun in Hr.
    destruct (Z.of_nat (List.length (seg_text segment)) =? 0);
      [contradiction|].
    destruct Hr as [<-|[]]. simpl.
    exists (seg_text segment), (seg_script segment), (fontFamily span),
      (fontWeight span).
    split; [|reflexivity].
    exact (proj1 (Forall_forall _ _)
             (scriptSegments_runScript blockLanguageFromAI lineText) _ Hs).
Qed.

End Selection.

(** ** Lines of neutral characters and digits *)

Lemma ScriptType_eqb_refl (s : ScriptType) : ScriptType_eqb s s = true.
Proof. now destruct s. Qed.

Lemma testClass_single (cls : codeunit -> bool) (c : codeunit) :
  testClass cls [c] = cls c.
Proof. unfold testClass. simpl. apply orb_false_r. Qed.

(** The white space and the punctuation of the class lie in these
    ranges, all of them outside the letters of the three scripts. *)
Lemma punct_space_ranges (c : codeunit) :
  COMMON_PUNCT_SPACE_REGEX_CHAR c = true ->
  9 <= c <= 13 \/ 32 <= c <= 47 \/ 58 <= c <= 64 \/ 91 <= c <= 96
  \/ 123 <= c <= 126 \/ c = 160 \/ c = 5760 \/ 8192 <= c <= 8202
  \/ 8232 <= c <= 8239 \/ c = 8287 \/ c = 12288 \/ c = 65279.
Proof.
  unfold COMMON_PUNCT_SPACE_REGEX_CHAR, isWhiteSpace, inRange.
  let l := eval vm_compute in
      (lit ".,!?;:'" ++ [34] ++ lit "(){}[]-@#$%^&*+=_<>/\|~`") in
  change (lit ".,!?;:'" ++ [34] ++ lit "(){}[]-@#$%^&*+=_<>/\|~`") with l.
  cbn [existsb].
  rewrite !orb_true_iff, !andb_true_iff, !Z.leb_le, !Z.eqb_eq. lia.
Qed.

Lemma neutralOrDigit_classes (c : codeunit) :
  neutralOrDigit c ->
  BENGALI_REGEX_CHAR c = false /\ ARABIC_REGEX_CHAR c = false
  /\ LATIN_REGEX_CHAR c = false.
Proof.
  intros H.
  assert (Hr : c <= 126 /\ ~ 65 <= c <= 90 /\ ~ 97 <= c <= 122
               \/ c = 160 \/ c = 5760 \/ 8192 <= c).
  { destruct H as [H|H].
    - apply punct_space_ranges in H. lia.
    - unfold DIGIT_REGEX_CHAR, inRange in H.
      rewrite andb_true_iff, !Z.leb_le in H. lia. }
  unfold BENGALI_REGEX_CHAR, ARABIC_REGEX_CHAR, LATIN_REGEX_CHAR, inRange.
  destruct Hr as [Hr|[Hr|[Hr|Hr]]]; repeat split; decide_tests;
    repeat match goal with
           | |- context [?a <=? ?b] => destruct (Z.leb_spec a b)
           end;
    first [reflexivity | exfalso; lia].
Qed.

Lemma neutralOrDigit_detect (c : codeunit) :
  neutralOrDigit c ->
  detectCharScript [c] = punct_space \/ detectCharScript [c] = digit.
Proof.
  intros H. destruct (neutralOrDigit_classes c H) as [Hb [Ha Hl]].
  unfold detectCharScript. rewrite !testClass_single, Hb, Ha, Hl.
  unfold neutralOrDigit in H.
  destruct (DIGIT_REGEX_CHAR c); [now right|].
  destruct H as [H|H]; [rewrite H; now left | discriminate H].
Qed.

Lemma neutral_line_classes (l : jsstring) :
  Forall neutralOrDigit l ->
  testClass LATIN_REGEX_CHAR l = false /\ testClass ARABIC_REGEX_CHAR l = false.
Proof.
  induction 1 as [|c l Hc Hl [IHa IHb]]; [split; reflexivity|].
  destruct (neutralOrDigit_classes c Hc) as [_ [Ha Hb]].
  unfold testClass in *. simpl. rewrite Ha, Hb, IHa, IHb. split; reflexivity.
Qed.

Lemma segStep_neutral (st : SegState) (c : codeunit) :
  neutralOrDigit c ->
  segStep st c = {| segments := segments st;
                    currentSegmentText := currentSegmentText st ++ [c];
                    currentSegmentScript := currentSegmentScript st |}.
Proof.
  intros Hc. unfold segStep.
  destruct (neutralOrDigit_detect c Hc) as [H|H]; rewrite H; simpl;
    now rewrite ScriptType_eqb_refl.
Qed.

Lemma fold_segStep_neutral (l : jsstring) (st : SegState) :
  Forall neutralOrDigit l ->
  fold_left segStep l st
  = {| segments := segments st;
       currentSegmentText := currentSegmentText st ++ l;
       currentSegmentScript := currentSegmentScript st |}.
Proof.
  intros H. revert st. induction H as [|c l Hc Hl IH]; intros st; simpl.
  - rewrite app_nil_r. now destruct st.
  - rewrite IH, (segStep_neutral st c Hc). simpl.
    now rewrite <- app_assoc.
Qed.

(** C6. A non-empty line made only of neutral characters and digits,
    segmented under the declared language [bn], gives exactly one
    sub-run, and its script class is [bengali]. *)
Theorem neutral_line_single_bengali_run (lineText : jsstring) :
  lineText <> [] ->
  Forall neutralOrDigit lineText ->
  exists run,
    scriptSegments bn lineText = [run]
    /\ seg_script run = bengali
    /\ seg_text run = lineText.
Proof.
  intros Hne Hall.
  exists {| seg_text := lineText; seg_script := bengali |}.
  split; [|split; reflexivity].
  destruct lineText as [|c l]; [now elim Hne|].
  unfold scriptSegments.
  replace (0 <? Z.of_nat (List.length (c :: l))) with true
    by (symmetry; apply Z.ltb_lt; simpl; lia).
  rewrite (fold_segStep_neutral (c :: l) _ Hall). simpl segments.
  simpl currentSegmentText. simpl currentSegmentScript.
  unfold pushCurrent. simpl.
  f_equal. f_equal.
  unfold initialScript.
  destruct (neutral_line_classes (c :: l) Hall) as [Hlat Har].
  rewrite Hlat, Har. simpl firstn.
  pose proof (neutralOrDigit_detect c (Forall_inv Hall)) as Hc.
  destruct Hc as [Hc|Hc]; rewrite Hc; reflexivity.
Qed.

Lemma neutral_line_single_bengali_run_witness :
  exists run,
    scriptSegments bn (lit "12, 3") = [run]
    /\ seg_script run = bengali
    /\ seg_text run = lit "12, 3".
Proof.
  apply (neutral_line_single_bengali_run (lit "12, 3")).
  - discriminate.
  - repeat (apply Forall_cons;
            [unfold neutralOrDigit; vm_compute; auto|]).
    apply Forall_nil.
Defined.

(** ** The price line *)

(** C2, as stated: three runs, the Latin text being cut in front of the
    ASCII digits. The code does not cut there. *)
Lemma price_line_not_three_runs :
  scriptSegments bn price_line
  <> [ {| seg_text := lit "Price: "; seg_script := latin |};
       {| seg_text := lit "100Tk "; seg_script := latin |};
       {| seg_text := [0x09EB; 0x09E6; 0x09E6]; seg_script := bengali |} ]
  /\ List.length (scriptSegments bn price_line) <> 3%nat.
Proof. split; vm_compute; discriminate. Qed.

(** C2, amended. Under the declared language [bn] the line gives exactly
    two runs: the Latin run with the digits and blanks absorbed, up to the
    first Bengali character, then the Bengali run; and a span with that
    text gives exactly the two styled runs with these texts. *)
Theorem price_line_two_runs :
  scriptSegments bn price_line
  = [ {| seg_text := lit "Price: 100Tk "; seg_script := latin |};
      {| seg_text := [0x09EB; 0x09E6; 0x09E6]; seg_script := bengali |} ]
  /\ forall size suggestion target blockType bold italic family weight col deco,
       map run_text
         (createTextRunsFromSpans size suggestion bn target blockType
            [ {| text := price_line; isBold := bold; isItalic := italic;
                 fontFamily := family; fontWeight := weight; color := col;
                 textDecoration := deco |} ])
       = [ Some (lit "Price: 100Tk "); Some [0x09EB; 0x09E6; 0x09E6] ].
Proof.
  split; [vm_compute; reflexivity|].
  intros. reflexivity.
Qed.

(** ** Font resolution *)

Lemma profileDefaultFont_table :
  profileDefaultFont word bengali = lit "SutonnyOMJ"
  /\ profileDefaultFont word arabic = lit "Traditional Arabic"
  /\ profileDefaultFont gdocs bengali = lit "Tiro Bangla"
  /\ profileDefaultFont gdocs arabic = lit "Noto Naskh Arabic".
Proof. repeat split. Qed.

Lemma isCommonArabicFont_curated (hint : option jsstring) :
  isCommonArabicFont hint = hintIsCurated arabic hint.
Proof.
  destruct hint as [h|]; [|reflexivity].
  unfold isCommonArabicFont, hintIsCurated, curatedFonts.
  destruct h; reflexivity.
Qed.

(** C1, as stated, fails for an Arabic run under the [word] profile: the
    generic key [arabic-modern-sans] is no curated font name, and it is
    answered with [Arial], which is neither the hint nor the profile's
    default Arabic font. *)
Lemma word_arabic_modern_sans_is_arial :
  let hint := Some (lit "arabic-modern-sans") in
  let font := mapFontFamilyToDocx [] arabic hint None None ar word in
  hintIsCurated arabic hint = false
  /\ font = lit "Arial"
  /\ font <> profileDefaultFont word arabic
  /\ Some font <> hint.
Proof. repeat split; vm_compute; discriminate. Qed.

(** C1, amended. Whatever the text, weight, block suggestion and language:
    a Bengali run gets the profile's fixed Bengali font, and the hint is
    not looked at; an Arabic run gets the hint verbatim when the hint is
    one of the curated Arabic font names, gets [Arial] under the [word]
    profile when the hint is the key [arabic-modern-sans], and gets the
    profile's fixed Arabic font in every other case. *)
Theorem font_resolution_bengali_arabic
    (txt : jsstring) (hint : option jsstring) (weight : option Z)
    (suggestion : option FontFamilySuggestion) (lang : Language)
    (target : TargetApplication) :
  let font s := mapFontFamilyToDocx txt s hint weight suggestion lang target in
  font bengali = profileDefaultFont target bengali
  /\ (hintIsCurated arabic hint = true -> Some (font arabic) = hint)
  /\ (hintIsCurated arabic hint = false ->
      font arabic =
        match target with
        | word => if isLit hint "arabic-modern-sans" then lit "Arial"
                  else profileDefaultFont word arabic
        | gdocs => profileDefaultFont gdocs arabic
        end).
Proof.
  intros font. subst font. split; [now destruct target|].
  rewrite <- isCommonArabicFont_curated.
  split; intros Hc.
  - destruct hint as [h|]; [|discriminate Hc].
    destruct target; unfold mapFontFamilyToDocx; now rewrite Hc.
  - destruct hint as [h|]; [|now destruct target].
    destruct target; unfold mapFontFamilyToDocx; rewrite Hc; [|reflexivity].
    change (profileDefaultFont word arabic) with (lit "Traditional Arabic").
    destruct (isLit (Some h) "arabic-modern-sans") eqn:Em.
    + apply str_eqb_eq in Em. subst h. reflexivity.
    + repeat match goal with
             | |- context [if ?b then _ else _] => destruct b
             end; reflexivity.
Qed.

Lemma font_resolution_bengali_arabic_witness :
  Some (mapFontFamilyToDocx [] arabic (Some (lit "Cairo")) None None ar gdocs)
  = Some (lit "Cairo")
  /\ mapFontFamilyToDocx [] arabic (Some (lit "arabic-kufi")) None None ar word
     = lit "Traditional Arabic".
Proof.
  split.
  - apply (proj1 (proj2 (font_resolution_bengali_arabic
                           [] (Some (lit "Cairo")) None None ar gdocs))).
    vm_compute. reflexivity.
  - apply (proj2 (proj2 (font_resolution_bengali_arabic
                           [] (Some (lit "arabic-kufi")) None None ar word))).
    vm_compute. reflexivity.
Defined.

(** ** Table cells: row spans *)


Lemma rowWidth_app (a b : list Docx.TableCell) :
  rowWidth (a ++ b) = rowWidth a + rowWidth b.
Proof.
  induction a as [|x a IH]; simpl; [reflexivity|]. rewrite IH. lia.
Qed.


























(** ** Table cells: borders *)

Lemma jsOr_firstPresent (a b : option jsstring) (d : jsstring) :
  jsOrLit (jsOr a b) d = firstPresent [a; b] d.
Proof.
  unfold jsOr, jsOrLit, truthyOpt. simpl.
  destruct a as [[|x a]|]; simpl; reflexivity.
Qed.



(** ** Point sizes *)

Lemma digits2_pos_iter_xO (p k : positive) :
  digits2_pos (Pos.iter xO p k) = (digits2_pos p + k)%positive.
Proof.
  induction k as [|k IH] using Pos.peano_ind.
  - simpl. lia.
  - rewrite Pos.iter_succ. simpl. rewrite IH. lia.
Qed.

Lemma Zpos_iter_xO (p k : positive) :
  Zpos (Pos.iter xO p k) = Zpos p * 2 ^ Zpos k.
Proof.
  induction k as [|k IH] using Pos.peano_ind.
  - simpl. lia.
  - rewrite Pos.iter_succ, Pos2Z.inj_xO, IH, Pos2Z.inj_succ, Z.pow_succ_r by lia.
    lia.
Qed.

Lemma digits2_pos_lower (p : positive) :
  2 ^ (Zpos (digits2_pos p) - 1) <= Zpos p.
Proof.
  induction p as [p IH|p IH|]; simpl digits2_pos.
  - rewrite Pos2Z.inj_succ.
    replace (Z.succ (Zpos (digits2_pos p)) - 1)
      with (Z.succ (Zpos (digits2_pos p) - 1)) by lia.
    rewrite Z.pow_succ_r by lia. lia.
  - rewrite Pos2Z.inj_succ.
    replace (Z.succ (Zpos (digits2_pos p)) - 1)
      with (Z.succ (Zpos (digits2_pos p) - 1)) by lia.
    rewrite Z.pow_succ_r by lia. lia.
  - simpl. lia.
Qed.

Lemma shr_fexp_exact (m : positive) (e : Z) :
  Zpos (digits2_pos m) = 53 -> -1074 <= e ->
  shr_fexp prec emax (Zpos m) e loc_Exact
  = ({| shr_m := Zpos m; shr_r := false; shr_s := false |}, e).
Proof.
  intros Hd He.
  unfold shr_fexp, fexp, emin, prec, emax. cbn [Zdigits2]. rewrite Hd.
  match goal with
  | |- shr _ _ ?n = _ => replace n with 0 by lia
  end.
  reflexivity.
Qed.

Lemma binary_round_aux_exact (m : positive) (e : Z) :
  Zpos (digits2_pos m) = 53 -> -1074 <= e <= 971 ->
  binary_round_aux prec emax false (Zpos m) e loc_Exact = S754_finite false m e.
Proof.
  intros Hd He.
  unfold binary_round_aux.
  rewrite shr_fexp_exact by lia.
  cbn [shr_m loc_of_shr_record round_nearest_even].
  rewrite shr_fexp_exact by lia.
  cbn [shr_m].
  replace (e <=? emax - prec) with true
    by (symmetry; apply Z.leb_le; unfold emax, prec; lia).
  reflexivity.
Qed.

Lemma ofZ_exact (n : Z) : 0 <= n < 2 ^ 53 -> toZ (ofZ n) = Some n.
Proof.
  intros [H0 Hn]. destruct n as [|p|p]; [reflexivity| |lia].
  pose proof (digits2_pos_lower p) as Hlow.
  assert (Hd : Zpos (digits2_pos p) <= 53).
  { destruct (Z.le_gt_cases (Zpos (digits2_pos p)) 53) as [H|H]; [exact H|].
    exfalso.
    assert (2 ^ 53 <= 2 ^ (Zpos (digits2_pos p) - 1))
      by (apply Z.pow_le_mono_r; lia).
    lia. }
  assert (Hf : fexp prec emax (Zpos (digits2_pos p) + 0)
               = Zpos (digits2_pos p) - 53)
    by (unfold fexp, emin, prec, emax; lia).
  unfold ofZ, binary_normalize, binary_round, shl_align. rewrite Hf.
  destruct (Zpos (digits2_pos p) - 53 - 0) as [|q|q] eqn:E; [| lia |].
  - cbv beta iota. rewrite binary_round_aux_exact by lia.
    unfold toZ. cbn. f_equal. lia.
  - assert (E' : Zpos (digits2_pos p) - 53 = Zneg q) by lia.
    rewrite E'. cbv beta iota.
    rewrite binary_round_aux_exact
      by (rewrite ?digits2_pos_iter_xO; lia).
    unfold toZ. cbn [Z.leb Z.compare Z.opp cond_Zopp].
    rewrite Zpos_iter_xO.
    rewrite Z.mod_mul by (apply Z.pow_nonzero; lia).
    rewrite Z.div_mul by (apply Z.pow_nonzero; lia). reflexivity.
Qed.

Lemma ofZ_exact_upto (n : Z) : 0 <= n <= 2 ^ 53 -> toZ (ofZ n) = Some n.
Proof.
  intros H. destruct (Z.eq_dec n (2 ^ 53)) as [->|Hne].
  - vm_compute. reflexivity.
  - apply ofZ_exact. lia.
Qed.

Lemma uintCodes_digits (d : Decimal.uint) : forallb isDigit (uintCodes d) = true.
Proof. induction d; simpl; auto. Qed.

Lemma digitsValue_acc (d : Decimal.uint) (acc : positive) :
  fold_left (fun a c => 10 * a + (c - 48)) (uintCodes d) (Zpos acc)
  = Zpos (Pos.of_uint_acc d acc).
Proof.
  revert acc.
  induction d; intros acc; cbn [uintCodes fold_left Pos.of_uint_acc];
    [reflexivity | rewrite <- IHd; f_equal; lia ..].
Qed.

Lemma digitsValue_uintCodes (d : Decimal.uint) :
  digitsValue (uintCodes d) = Z.of_N (N.of_uint d).
Proof.
  unfold digitsValue, N.of_uint.
  induction d; cbn [uintCodes fold_left Pos.of_uint Z.of_N];
    [reflexivity | exact IHd | apply digitsValue_acc ..].
Qed.

Lemma digitsValue_decimalDigits (n : Z) :
  0 <= n -> digitsValue (decimalDigits n) = n.
Proof.
  intros H. unfold decimalDigits.
  rewrite digitsValue_uintCodes, DecimalN.Unsigned.of_to. lia.
Qed.

Lemma decimalDigits_nonempty (n : Z) : decimalDigits n <> [].
Proof.
  unfold decimalDigits. destruct (Z.to_N n) as [|p]; [discriminate|].
  simpl. pose proof (DecimalPos.Unsigned.to_uint_nonnil p) as H.
  destruct (Pos.to_uint p); try discriminate. now elim H.
Qed.

Lemma isDigit_spec (c : codeunit) : isDigit c = true <-> 48 <= c <= 57.
Proof.
  unfold isDigit, inRange. rewrite andb_true_iff, !Z.leb_le. reflexivity.
Qed.

Lemma digit_not_space_nor_sign (c : codeunit) :
  isDigit c = true ->
  isWhiteSpace c = false /\ (c =? 45) = false /\ (c =? 43) = false.
Proof.
  intros H. apply isDigit_spec in H.
  unfold isWhiteSpace, inRange. repeat split; decide_tests; reflexivity.
Qed.

Lemma spanClass_all (cls : codeunit -> bool) (s : jsstring) :
  forallb cls s = true -> spanClass cls s = (s, []).
Proof.
  induction s as [|c s IH]; simpl; [reflexivity|].
  intros H. apply andb_true_iff in H as [Hc Hs].
  now rewrite Hc, (IH Hs).
Qed.

Lemma parseInt_digits (ds : jsstring) :
  ds <> [] -> forallb isDigit ds = true ->
  parseInt ds = ofZ (digitsValue ds).
Proof.
  intros Hne Hall. destruct ds as [|c ds]; [now elim Hne|].
  pose proof Hall as Hall'. simpl in Hall'.
  apply andb_true_iff in Hall' as [Hc _].
  destruct (digit_not_space_nor_sign c Hc) as [Hw [Hm Hp]].
  unfold parseInt. simpl dropClass. rewrite Hw, Hm, Hp.
  rewrite (spanClass_all isDigit (c :: ds) Hall). reflexivity.
Qed.

Lemma match_pt_digits_point (ds : jsstring) :
  ds <> [] -> forallb isDigit ds = true ->
  match_pt_digits (lit "pt" ++ ds) = Some ds.
Proof.
  intros Hne Hall. simpl. rewrite Hall.
  destruct ds; [now elim Hne | reflexivity].
Qed.

Lemma match_pt_digits_Some (s ds : jsstring) :
  match_pt_digits s = Some ds -> isPointToken s.
Proof.
  unfold match_pt_digits.
  destruct s as [|p [|t rest]]; try discriminate.
  destruct ((p =? 112) && (t =? 116) && truthy rest && forallb isDigit rest)
    eqn:E; [|discriminate].
  intros _. apply andb_true_iff in E as [E Hd].
  apply andb_true_iff in E as [E Ht].
  apply andb_true_iff in E as [Ep Et].
  apply Z.eqb_eq in Ep, Et. subst p t.
  exists rest. repeat split.
  - destruct rest; [discriminate Ht | discriminate].
  - apply Forall_forall. intros c Hin.
    apply isDigit_spec. now apply (proj1 (forallb_forall _ _) Hd).
Qed.

Lemma parsePtStringToNumber_digits (ds : jsstring) (d : number) :
  ds <> [] -> forallb isDigit ds = true ->
  parsePtStringToNumber (Some (lit "pt" ++ ds)) d = ofZ (digitsValue ds).
Proof.
  intros Hne Hall. unfold parsePtStringToNumber.
  rewrite (match_pt_digits_point ds Hne Hall).
  rewrite <- (parseInt_digits ds Hne Hall).
  destruct ds; [now elim Hne | reflexivity].
Qed.

(** C7, as stated, fails beyond [2^53]: the digits of [2^53 + 1] are
    parsed to the number [2^53], the nearest binary64 value. *)
Lemma parsePtStringToNumber_rounds_beyond_2_53 :
  decimalDigits 9007199254740993 = lit "9007199254740993"
  /\ toZ (parsePtStringToNumber
            (Some (lit "pt" ++ decimalDigits 9007199254740993)) (ofZ 11))
     = Some 9007199254740992.
Proof. split; vm_compute; reflexivity. Qed.

(** C7, amended. For every default [d]: on the token [pt] followed by the
    decimal digits of a natural number [N] not above [2^53],
    [parsePtStringToNumber] returns [N]; on every string that is not of
    the form [pt<N>], and on an absent token, it returns [d]. The
    function is total: no input makes it fail. *)
Theorem parsePtStringToNumber_point_token (d : number) :
  (forall N, 0 <= N <= 2 ^ 53 ->
     toZ (parsePtStringToNumber (Some (lit "pt" ++ decimalDigits N)) d) = Some N)
  /\ (forall s, ~ isPointToken s -> parsePtStringToNumber (Some s) d = d)
  /\ parsePtStringToNumber None d = d.
Proof.
  split; [|split; [|reflexivity]].
  - intros N HN.
    rewrite parsePtStringToNumber_digits
      by (apply decimalDigits_nonempty || apply uintCodes_digits).
    rewrite digitsValue_decimalDigits by lia.
    apply ofZ_exact_upto, HN.
  - intros s Hs. unfold parsePtStringToNumber.
    destruct (negb (truthy s)); [reflexivity|].
    destruct (match_pt_digits s) as [ds|] eqn:E; [|reflexivity].
    elim Hs. eapply match_pt_digits_Some, E.
Qed.

Lemma parsePtStringToNumber_point_token_witness :
  toZ (parsePtStringToNumber (Some (lit "pt" ++ decimalDigits 22)) (ofZ 11)) = Some 22
  /\ parsePtStringToNumber (Some (lit "large")) (ofZ 11) = ofZ 11.
Proof.
  split.
  - apply (proj1 (parsePtStringToNumber_point_token (ofZ 11))). lia.
  - apply (proj1 (proj2 (parsePtStringToNumber_point_token (ofZ 11)))).
    intros [ds [_ [_ H]]]. discriminate H.
Defined.

(* ================================================================== *)
(** * Further properties of the export service *)

(** ** The shape of the segments *)

Lemma pushCurrent_shape (st : SegState) :
  shapeInv st ->
  Forall (fun seg => Forall (fitsScript (seg_script seg)) (seg_text seg))
         (pushCurrent st)
  /\ Forall opensWithOwnScript (tl (pushCurrent st)).
Proof.
  intros [Hp Hc Ho Hoc]. unfold pushCurrent.
  destruct (currentSegmentText st) as [|c t] eqn:E; simpl; [auto|].
  split.
  - apply Forall_app. split; [exact Hp|]. constructor; [exact Hc|constructor].
  - destruct (segments st) as [|a l] eqn:Es; simpl; [constructor|].
    simpl in Ho. apply Forall_app. split; [exact Ho|].
    constructor; [|constructor]. apply Hoc. discriminate.
Qed.

Lemma segStep_shape (st : SegState) (c : codeunit) :
  shapeInv st -> shapeInv (segStep st c).
Proof.
  intros Hinv. pose proof Hinv as [Hp Hc Ho Hoc]. unfold segStep.
  destruct (ScriptType_eqb _ (currentSegmentScript st)) eqn:Ejoin.
  - constructor; simpl; try assumption.
    + apply Forall_app. split; [exact Hc|]. constructor; [|constructor].
      unfold fitsScript.
      destruct (detectCharScript [c]) eqn:Ec; simpl in Ejoin; auto;
        destruct (currentSegmentScript st); try discriminate Ejoin; auto.
    + intros Hne. destruct (Hoc Hne) as [c0 [t [Ht Hs]]]. simpl in Ht, Hs.
      exists c0, (t ++ [c]). simpl. rewrite Ht. split; [reflexivity|exact Hs].
  - destruct (pushCurrent_shape st Hinv) as [Hp' Ho'].
    constructor; simpl; try assumption.
    + constructor; [now left|constructor].
    + intros _. exists c, []. split; reflexivity.
Qed.

Lemma fold_segStep_shape (l : jsstring) (st : SegState) :
  shapeInv st -> shapeInv (fold_left segStep l st).
Proof.
  revert st. induction l as [|c l IH]; intros st H; simpl;
    [exact H | apply IH, segStep_shape, H].
Qed.

Lemma initial_shape (s : ScriptType) :
  shapeInv {| segments := []; currentSegmentText := [];
              currentSegmentScript := s |}.
Proof. constructor; simpl; try constructor. intros H. now elim H. Qed.

(** X1. Every sub-run is homogeneous: each of its code units is one the
    classifier gives the run's script class, or a digit, or a neutral
    character. *)
Theorem segments_homogeneous (lang : Language) (lineText : jsstring) :
  Forall (fun seg => Forall (fitsScript (seg_script seg)) (seg_text seg))
         (scriptSegments lang lineText).
Proof.
  unfold scriptSegments.
  destruct (0 <? Z.of_nat (List.length lineText)); [|constructor].
  apply pushCurrent_shape, fold_segStep_shape, initial_shape.
Qed.

(** X2. A boundary is only ever placed in front of a letter of the new
    script: every sub-run after the first opens with a code unit whose
    class is the sub-run's own script class. *)
Theorem segments_open_with_own_script (lang : Language) (lineText : jsstring) :
  Forall opensWithOwnScript (tl (scriptSegments lang lineText)).
Proof.
  unfold scriptSegments.
  destruct (0 <? Z.of_nat (List.length lineText)); [|constructor].
  apply pushCurrent_shape, fold_segStep_shape, initial_shape.
Qed.

Lemma initialScript_letter (lang : Language) (c : codeunit) (rest : jsstring) :
  detectCharScript [c] = bengali \/ detectCharScript [c] = arabic
  \/ detectCharScript [c] = latin ->
  initialScript lang (c :: rest) = detectCharScript [c].
Proof.
  unfold initialScript. simpl firstn.
  intros [H|[H|H]]; rewrite H; reflexivity.
Qed.

(** X3. When the line starts with a Bengali, Arabic or Latin letter, the
    declared language plays no part: the segmentation is the same under
    any two languages. *)
Theorem segmentation_ignores_language_after_letter
    (lang1 lang2 : Language) (c : codeunit) (rest : jsstring) :
  detectCharScript [c] = bengali \/ detectCharScript [c] = arabic
  \/ detectCharScript [c] = latin ->
  scriptSegments lang1 (c :: rest) = scriptSegments lang2 (c :: rest).
Proof.
  intros H. unfold scriptSegments.
  now rewrite (initialScript_letter lang1 c rest H),
              (initialScript_letter lang2 c rest H).
Qed.

Lemma segmentation_ignores_language_after_letter_witness :
  scriptSegments bn price_line = scriptSegments en price_line.
Proof.
  apply (segmentation_ignores_language_after_letter bn en 80).
  right. right. vm_compute. reflexivity.
Defined.

Lemma segStep_fits (st : SegState) (c : codeunit) :
  runScript (currentSegmentScript st) ->
  fitsScript (currentSegmentScript st) c ->
  segStep st c = {| segments := segments st;
                    currentSegmentText := currentSegmentText st ++ [c];
                    currentSegmentScript := currentSegmentScript st |}.
Proof.
  intros Hrun Hfit. unfold segStep.
  destruct Hfit as [H|[H|H]]; rewrite H; simpl;
    try now rewrite ScriptType_eqb_refl.
  apply runScript_not_neutral in Hrun as [Hd Hp].
  destruct (currentSegmentScript st); simpl; try reflexivity;
    congruence.
Qed.

Lemma fold_segStep_fits (l : jsstring) (st : SegState) :
  runScript (currentSegmentScript st) ->
  Forall (fitsScript (currentSegmentScript st)) l ->
  fold_left segStep l st
  = {| segments := segments st;
       currentSegmentText := currentSegmentText st ++ l;
       currentSegmentScript := currentSegmentScript st |}.
Proof.
  intros Hrun H. revert st Hrun H.
  induction l as [|c l IH]; intros st Hrun H; simpl.
  - rewrite app_nil_r. now destruct st.
  - rewrite (segStep_fits st c Hrun (Forall_inv H)).
    rewrite IH; simpl; [|exact Hrun|exact (Forall_inv_tail H)].
    now rewrite <- app_assoc.
Qed.

(** A line whose code units all fit the script the loop starts with is
    one run. *)
Lemma single_run_from (lang : Language) (lineText : jsstring) :
  lineText <> [] ->
  Forall (fitsScript (initialScript lang lineText)) lineText ->
  scriptSegments lang lineText
  = [ {| seg_text := lineText; seg_script := initialScript lang lineText |} ].
Proof.
  intros Hne Hall. unfold scriptSegments.
  destruct lineText as [|c l] eqn:E; [now elim Hne|]. rewrite <- E in *.
  replace (0 <? Z.of_nat (List.length lineText)) with true
    by (symmetry; apply Z.ltb_lt; rewrite E; simpl; lia).
  rewrite fold_segStep_fits; simpl;
    [|apply initialScript_runScript|exact Hall].
  unfold pushCurrent. simpl. rewrite E. reflexivity.
Qed.

(** X4. A line that starts with a letter of one script and otherwise
    holds only letters of that script, digits and neutral characters is a
    single run of that script, whatever the declared language. *)
Theorem single_script_line_single_run
    (lang : Language) (c : codeunit) (rest : jsstring) :
  detectCharScript [c] = bengali \/ detectCharScript [c] = arabic
  \/ detectCharScript [c] = latin ->
  Forall (fitsScript (detectCharScript [c])) rest ->
  scriptSegments lang (c :: rest)
  = [ {| seg_text := c :: rest; seg_script := detectCharScript [c] |} ].
Proof.
  intros Hc Hrest.
  rewrite <- (initialScript_letter lang c rest Hc).
  apply single_run_from; [discriminate|].
  rewrite (initialScript_letter lang c rest Hc).
  constructor; [now left | exact Hrest].
Qed.

Lemma single_script_line_single_run_witness :
  scriptSegments ar (lit "Tk 100")
  = [ {| seg_text := lit "Tk 100"; seg_script := latin |} ].
Proof.
  apply (single_script_line_single_run ar 84 (lit "k 100")).
  - right. right. vm_compute. reflexivity.
  - repeat (apply Forall_cons; [unfold fitsScript; vm_compute; auto|]).
    apply Forall_nil.
Defined.

Lemma detectCharScript_classes (c : codeunit) :
  match detectCharScript [c] with
  | bengali => BENGALI_REGEX_CHAR c = true
  | arabic => BENGALI_REGEX_CHAR c = false /\ ARABIC_REGEX_CHAR c = true
  | latin => BENGALI_REGEX_CHAR c = false /\ ARABIC_REGEX_CHAR c = false
             /\ LATIN_REGEX_CHAR c = true
  | _ => BENGALI_REGEX_CHAR c = false /\ ARABIC_REGEX_CHAR c = false
         /\ LATIN_REGEX_CHAR c = false
  end.
Proof.
  unfold detectCharScript. rewrite !testClass_single.
  destruct (BENGALI_REGEX_CHAR c); [reflexivity|].
  destruct (ARABIC_REGEX_CHAR c); [auto|].
  destruct (LATIN_REGEX_CHAR c); [auto|].
  destruct (DIGIT_REGEX_CHAR c); [auto|].
  destruct (COMMON_PUNCT_SPACE_REGEX_CHAR c); auto.
Qed.

(** The letters of the three scripts lie in disjoint ranges. *)
Lemma script_ranges_disjoint (c : codeunit) :
  (BENGALI_REGEX_CHAR c = true ->
   ARABIC_REGEX_CHAR c = false /\ LATIN_REGEX_CHAR c = false)
  /\ (ARABIC_REGEX_CHAR c = true -> LATIN_REGEX_CHAR c = false).
Proof.
  unfold BENGALI_REGEX_CHAR, ARABIC_REGEX_CHAR, LATIN_REGEX_CHAR, inRange.
  split; intros H;
    rewrite ?orb_true_iff, ?andb_true_iff, ?Z.leb_le in H;
    repeat split; decide_tests; reflexivity.
Qed.

Lemma fits_bengali_classes (l : jsstring) :
  Forall (fitsScript bengali) l ->
  testClass LATIN_REGEX_CHAR l = false /\ testClass ARABIC_REGEX_CHAR l = false.
Proof.
  induction 1 as [|c l Hc Hl [IHa IHb]]; [split; reflexivity|].
  unfold testClass in *. simpl. rewrite IHa, IHb, !orb_false_r.
  pose proof (detectCharScript_classes c) as Hd.
  pose proof (script_ranges_disjoint c) as [Hb _].
  destruct Hc as [Hc|[Hc|Hc]]; rewrite Hc in Hd.
  - destruct (Hb Hd). auto.
  - destruct Hd as [_ [? ?]]. auto.
  - destruct Hd as [_ [? ?]]. auto.
Qed.

Lemma fits_arabic_classes (l : jsstring) :
  Forall (fitsScript arabic) l ->
  testClass LATIN_REGEX_CHAR l = false /\ testClass BENGALI_REGEX_CHAR l = false.
Proof.
  induction 1 as [|c l Hc Hl [IHa IHb]]; [split; reflexivity|].
  unfold testClass in *. simpl. rewrite IHa, IHb, !orb_false_r.
  pose proof (detectCharScript_classes c) as Hd.
  pose proof (script_ranges_disjoint c) as [_ Ha].
  destruct Hc as [Hc|[Hc|Hc]]; rewrite Hc in Hd.
  - destruct Hd as [? Hd]. auto.
  - destruct Hd as [? [? ?]]. auto.
  - destruct Hd as [? [? ?]]. auto.
Qed.

Lemma initialScript_declared (lang : Language) (lineText : jsstring) :
  lineText <> [] ->
  Forall (fitsScript (declaredScript lang)) lineText ->
  initialScript lang lineText = declaredScript lang.
Proof.
  intros Hne Hall. destruct lineText as [|c l]; [now elim Hne|].
  unfold initialScript. simpl firstn.
  pose proof (Forall_inv Hall) as Hc.
  destruct lang; simpl declaredScript in *.
  - destruct Hc as [Hc|[Hc|Hc]]; rewrite Hc; reflexivity.
  - destruct (fits_bengali_classes _ Hall) as [Hl Ha]. rewrite Hl, Ha.
    destruct Hc as [Hc|[Hc|Hc]]; rewrite Hc; reflexivity.
  - destruct (fits_arabic_classes _ Hall) as [Hl Hb]. rewrite Hl, Hb.
    destruct Hc as [Hc|[Hc|Hc]]; rewrite Hc; reflexivity.
  - destruct Hc as [Hc|[Hc|Hc]]; rewrite Hc; reflexivity.
Qed.

(** X5. A non-empty line that holds only letters of the declared
    language's script, digits and neutral characters is a single run of
    that script, even when it starts with a digit or a neutral character;
    the script is Bengali under [bn], Arabic under [ar] and Latin under
    the other languages. *)
Theorem declared_language_line_single_run (lang : Language) (lineText : jsstring) :
  lineText <> [] ->
  Forall (fitsScript (declaredScript lang)) lineText ->
  scriptSegments lang lineText
  = [ {| seg_text := lineText; seg_script := declaredScript lang |} ].
Proof.
  intros Hne Hall.
  rewrite <- (initialScript_declared lang lineText Hne Hall).
  apply single_run_from; [exact Hne|].
  now rewrite (initialScript_declared lang lineText Hne Hall).
Qed.

Lemma declared_language_line_single_run_witness :
  scriptSegments ar ([49; 46; 32; 0x0633; 0x0644; 0x0627; 0x0645])
  = [ {| seg_text := [49; 46; 32; 0x0633; 0x0644; 0x0627; 0x0645];
         seg_script := arabic |} ].
Proof.
  apply (declared_language_line_single_run ar
           [49; 46; 32; 0x0633; 0x0644; 0x0627; 0x0645]).
  - discriminate.
  - repeat (apply Forall_cons; [unfold fitsScript; vm_compute; auto|]).
    apply Forall_nil.
Defined.

(** ** Lines of a span *)

Lemma hasSeparator_snoc (cur : jsstring) (c : codeunit) :
  hasSeparator cur = false ->
  c <> 10 ->
  (endsWithBackslash cur = true -> c <> 110) ->
  hasSeparator (cur ++ [c]) = false.
Proof.
  intros Hcur Hc10. apply Z.eqb_neq in Hc10.
  induction cur as [|a cur IH]; intros Hlast.
  - simpl. now rewrite Hc10.
  - destruct cur as [|b cur'].
    + simpl in *. apply orb_false_iff in Hcur as [Hcur _].
      apply orb_false_iff in Hcur as [Ha _]. rewrite Ha, Hc10.
      destruct (a =? 92); simpl; [|reflexivity].
      specialize (Hlast eq_refl). apply Z.eqb_neq in Hlast.
      now rewrite Hlast.
    + cbn [hasSeparator] in Hcur.
      apply orb_false_iff in Hcur as [Hcur Hrest].
      apply orb_false_iff in Hcur as [Ha Had].
      change ((a :: b :: cur') ++ [c]) with (a :: b :: (cur' ++ [c])).
      cbn [hasSeparator]. rewrite Ha, Had. cbn [orb].
      apply IH; [exact Hrest | exact Hlast].
Qed.

Lemma endsWithBackslash_snoc (cur : jsstring) (c : codeunit) :
  endsWithBackslash (cur ++ [c]) = (c =? 92).
Proof.
  induction cur as [|a cur IH]; [reflexivity|].
  simpl. destruct (cur ++ [c]) eqn:E; [now destruct cur|]. exact IH.
Qed.

Lemma splitLines_pieces (n : nat) :
  forall s cur,
    (List.length s <= n)%nat ->
    hasSeparator cur = false ->
    (endsWithBackslash cur = true -> forall t, s <> 110 :: t) ->
    Forall (fun p => hasSeparator p = false) (splitLines s cur).
Proof.
  induction n as [|n IH]; intros s cur Hlen Hcur Hlast.
  - destruct s; [|simpl in Hlen; lia]. simpl. now constructor.
  - destruct s as [|c rest]; [simpl; now constructor|].
    simpl in Hlen. simpl.
    destruct (Z.eqb_spec c 10) as [E10|E10].
    + constructor; [exact Hcur|]. apply IH; [lia|reflexivity|discriminate].
    + assert (Hsnoc : hasSeparator (cur ++ [c]) = false).
      { apply hasSeparator_snoc; try assumption.
        intros H E. subst c. exact (Hlast H rest eq_refl). }
      destruct rest as [|d rest'].
      * constructor; [exact Hsnoc|constructor].
      * destruct ((c =? 92) && (d =? 110)) eqn:Esep.
        -- constructor; [exact Hcur|].
           apply IH; [simpl in Hlen; lia|reflexivity|discriminate].
        -- apply IH; [lia|exact Hsnoc|].
           rewrite endsWithBackslash_snoc. intros H92 t Et.
           injection Et as -> _. rewrite H92 in Esep. discriminate Esep.
Qed.

Lemma splitLines_nonempty (s cur : jsstring) : splitLines s cur <> [].
Proof.
  revert cur. induction s as [|c rest IH]; intros cur; simpl; [discriminate|].
  destruct (c =? 10); [discriminate|].
  destruct rest as [|d rest']; [discriminate|].
  destruct ((c =? 92) && (d =? 110)); [discriminate | apply IH].
Qed.

(** X6. Splitting a text into lines always gives at least one line, and
    no line holds a separator any more: neither a line feed nor a
    backslash followed by [n]. *)
Theorem splitLines_separator_free (s : jsstring) :
  splitLines s [] <> []
  /\ Forall (fun p => hasSeparator p = false) (splitLines s []).
Proof.
  split; [apply splitLines_nonempty|].
  apply (splitLines_pieces (List.length s) s []);
    [apply le_n|reflexivity|discriminate].
Qed.

Lemma splitLines_through (p : jsstring) :
  forall cur tail,
    hasSeparator p = false ->
    (tail = [] \/ exists t, tail = 10 :: t) ->
    splitLines (p ++ tail) cur = splitLines tail (cur ++ p).
Proof.
  induction p as [|c p IH]; intros cur tail Hp Htail.
  - now rewrite app_nil_r.
  - simpl in Hp. apply orb_false_iff in Hp as [Hp Hrest].
    apply orb_false_iff in Hp as [Hc Hcd].
    change ((c :: p) ++ tail) with (c :: (p ++ tail)).
    cbn [splitLines]. rewrite Hc.
    replace (cur ++ c :: p) with ((cur ++ [c]) ++ p)
      by (now rewrite <- app_assoc).
    destruct (p ++ tail) as [|d r] eqn:E.
    + apply app_eq_nil in E as [-> ->]. now rewrite app_nil_r.
    + assert (Hsep : (c =? 92) && (d =? 110) = false).
      { destruct p as [|d' p'].
        - simpl in E. destruct Htail as [->|[t ->]]; [discriminate E|].
          injection E as <- _. apply andb_false_r.
        - simpl in E. injection E as <- _. exact Hcd. }
      rewrite Hsep, <- E. apply IH; assumption.
Qed.

(** X7. Split undoes join: lines that hold no separator, joined by line
    feeds and split again, come back as they were. *)
Theorem splitLines_joinLines (pieces : list jsstring) :
  pieces <> [] ->
  Forall (fun p => hasSeparator p = false) pieces ->
  splitLines (joinLines pieces) [] = pieces.
Proof.
  intros Hne Hall. induction pieces as [|p rest IH]; [now elim Hne|].
  pose proof (Forall_inv Hall) as Hp.
  destruct rest as [|q rest'].
  - simpl. rewrite <- (app_nil_r p) at 1.
    rewrite splitLines_through; [reflexivity|exact Hp|now left].
  - change (joinLines (p :: q :: rest'))
      with (p ++ 10 :: joinLines (q :: rest')).
    rewrite splitLines_through; [|exact Hp|right; eauto].
    cbn [splitLines app]. rewrite Z.eqb_refl. f_equal.
    apply IH; [discriminate|exact (Forall_inv_tail Hall)].
Qed.

Lemma splitLines_joinLines_witness :
  splitLines (joinLines [lit "a\b"; []; lit "c"]) [] = [lit "a\b"; []; lit "c"].
Proof.
  apply (splitLines_joinLines [lit "a\b"; []; lit "c"]).
  - discriminate.
  - repeat constructor.
Defined.

(** ** The runs of a span *)


Section RunsOfSpans.

Variable size : option jsstring.
Variable suggestion : option FontFamilySuggestion.
Variable lang : Language.
Variable target : TargetApplication.
Variable blockType : option ParagraphAndHeadingBlockType.








Lemma breaks_segmentRuns (span : TextSpan) (segs : list Segment) :
  filter isBreakRun
    (flat_map (segmentRun size suggestion lang target blockType span) segs) = [].
Proof.
  induction segs as [|seg segs IH]; [reflexivity|].
  simpl. rewrite filter_app, IH, app_nil_r. unfold segmentRun.
  now destruct (Z.of_nat (List.length (seg_text seg)) =? 0).
Qed.

Lemma breaks_linesRuns (span : TextSpan) (numLines : nat)
    (textLines : list jsstring) :
  forall lineIndex,
    (lineIndex + List.length textLines = numLines)%nat ->
    List.length
      (filter isBreakRun
         (linesRuns size suggestion lang target blockType span numLines
            lineIndex textLines))
    = Nat.pred (List.length textLines).
Proof.
  induction textLines as [|l rest IH]; intros lineIndex Hlen; [reflexivity|].
  cbn [linesRuns]. rewrite filter_app, length_app.
  rewrite (IH (S lineIndex)) by (simpl in Hlen; lia).
  simpl in Hlen.
  assert (Hline :
      List.length (filter isBreakRun
        (lineRuns size suggestion lang target blockType span numLines
           lineIndex l))
      = if Z.of_nat lineIndex <? Z.of_nat numLines - 1 then 1%nat else 0%nat).
  { unfold lineRuns.
    destruct (negb (truthy l) && (1 <? Z.of_nat numLines)).
    - now destruct (Z.of_nat lineIndex <? Z.of_nat numLines - 1).
    - rewrite filter_app, breaks_segmentRuns.
      now destruct (Z.of_nat lineIndex <? Z.of_nat numLines - 1). }
  rewrite Hline. destruct rest as [|q rest'].
  - simpl in *.
    replace (Z.of_nat lineIndex <? Z.of_nat numLines - 1) with false
      by (symmetry; apply Z.ltb_ge; lia).
    reflexivity.
  - simpl List.length in *.
    replace (Z.of_nat lineIndex <? Z.of_nat numLines - 1) with true
      by (symmetry; apply Z.ltb_lt; lia).
    reflexivity.
Qed.

(** X9. A span gives one break less than it has lines: a break stands
    between two lines, never after the last one, and empty lines in the
    middle keep their break. *)
Theorem span_breaks_between_lines (span : TextSpan) :
  S (List.length
       (filter isBreakRun
          (spanRuns size suggestion lang target blockType span)))
  = List.length (splitLines (text span) []).
Proof.
  unfold spanRuns. rewrite breaks_linesRuns by reflexivity.
  pose proof (splitLines_nonempty (text span) []) as H.
  destruct (splitLines (text span) []); [now elim H | reflexivity].
Qed.

(** X10. Every run built from spans is the break run or a text run whose
    text is not empty and whose size is the size of the owning block or
    cell: the size never varies from one sub-run to the next. *)
Theorem runs_nonempty_uniform_size (spans : list TextSpan) :
  Forall (fun run =>
            run = breakRun
            \/ (run_break run = None
                /\ (exists t, run_text run = Some t /\ t <> [])
                /\ run_size run = Some (mapFontSizeToDocx size blockType)))
         (createTextRunsFromSpans size suggestion lang target blockType spans).
Proof.
  apply Forall_forall. intros run Hin.
  unfold createTextRunsFromSpans in Hin.
  apply in_flat_map in Hin as [span [_ Hin]]. unfold spanRuns in Hin.
  apply In_linesRuns in Hin as [->|[lineText [segment [Hs Hr]]]];
    [now left|right].
  unfold segmentRun in Hr.
  destruct (Z.eqb_spec (Z.of_nat (List.length (seg_text segment))) 0)
    as [E|E]; [contradiction|].
  destruct Hr as [<-|[]]. simpl.
  split; [reflexivity|]. split; [|reflexivity].
  exists (seg_text segment). split; [reflexivity|].
  intros Hnil. rewrite Hnil in E. now apply E.
Qed.

End RunsOfSpans.

(** ** Fonts and colours *)

(** X11. The font of a run is always one of the fonts its profile names,
    or, for an Arabic run only, the author's hint when that hint is one of
    the curated Arabic font names: no other hint ever reaches the
    document. *)
Theorem font_is_profile_or_curated
    (txt : jsstring) (s : ScriptType) (hint : option jsstring)
    (weight : option Z) (suggestion : option FontFamilySuggestion)
    (lang : Language) (target : TargetApplication) :
  let font := mapFontFamilyToDocx txt s hint weight suggestion lang target in
  In font (profileFonts target)
  \/ (s = arabic /\ hint = Some font /\ In font commonArabicFonts).
Proof.
  intros font. subst font.
  destruct target, s; try (left; simpl; tauto);
    unfold mapFontFamilyToDocx;
    (destruct hint as [h|]; [|left; simpl; tauto]);
    destruct (isCommonArabicFont (Some h)) eqn:E.
  - right. repeat split. simpl in E. apply andb_true_iff in E as [_ E].
    now apply includes_In.
  - left. repeat match goal with
                 | |- context [if ?b then _ else _] => destruct b
                 end; simpl; tauto.
  - right. repeat split. simpl in E. apply andb_true_iff in E as [_ E].
    now apply includes_In.
  - left. simpl. tauto.
Qed.

Lemma isHexDigit_spec (c : codeunit) : isHexDigit c = true <-> hexDigit c.
Proof.
  unfold isHexDigit, hexDigit, inRange.
  rewrite !orb_true_iff, !andb_true_iff, !Z.leb_le. tauto.
Qed.

Lemma testHexColor_spec (lo hi : nat) (s : jsstring) :
  testHexColor (Z.of_nat lo) (Z.of_nat hi) s = true
  <-> exists ds, hexColor lo hi s ds.
Proof.
  unfold testHexColor, hexColor. destruct s as [|c rest].
  - split; [discriminate | intros [ds [H _]]; discriminate H].
  - rewrite !andb_true_iff, Z.eqb_eq, !Z.leb_le, forallb_forall. split.
    + intros [[[Hc Hd] Hlo] Hhi]. subst c. exists rest.
      split; [reflexivity|]. split; [lia|].
      apply Forall_forall. intros x Hx. now apply isHexDigit_spec, Hd.
    + intros [ds [H [Hlen Hd]]]. injection H as -> ->.
      repeat split; try lia.
      intros x Hx. apply isHexDigit_spec.
      now apply (proj1 (Forall_forall _ _) Hd).
Qed.

Lemma hexDigit_forallb (ds : jsstring) :
  Forall hexDigit ds -> forallb isHexDigit ds = true.
Proof.
  intros H. apply forallb_forall. intros c Hc.
  apply isHexDigit_spec. now apply (proj1 (Forall_forall _ _) H).
Qed.

Lemma hexColorValue_digits (ds : jsstring) :
  Forall hexDigit ds ->
  Docx.hexColorValue ds
  = if (List.length ds =? 6)%nat then Some ds else None.
Proof.
  intros Hds. unfold Docx.hexColorValue.
  assert (Hauto : str_eqb ds (lit "auto") = false).
  { destruct (str_eqb ds (lit "auto")) eqn:E; [|reflexivity].
    apply str_eqb_eq in E. subst ds.
    apply Forall_inv_tail, Forall_inv in Hds. unfold hexDigit in Hds.
    cbv in Hds. intuition discriminate. }
  rewrite Hauto.
  assert (Hcolor : match ds with
                   | c :: rest => if c =? 35 then rest else ds
                   | [] => ds
                   end = ds).
  { destruct ds as [|c rest]; [reflexivity|].
    apply Forall_inv in Hds. unfold hexDigit in Hds.
    replace (c =? 35) with false by (symmetry; apply Z.eqb_neq; lia).
    reflexivity. }
  rewrite Hcolor, (spanClass_all isHexDigit ds (hexDigit_forallb ds Hds)).
  cbn [forallb]. rewrite andb_true_r.
  destruct (Nat.eqb_spec (List.length ds) 6) as [E|E].
  - rewrite E. destruct ds; [discriminate E | reflexivity].
  - replace (Z.of_nat (List.length ds) =? 6) with false
      by (symmetry; apply Z.eqb_neq; lia).
    reflexivity.
Qed.

(** X12. A text run is given the colour of its span when that colour
    is a hash sign followed by six hexadecimal digits: the run carries
    the six digits, and the library accepts it. When the colour is a
    hash sign followed by three, four, five, seven or eight hexadecimal
    digits, the source hands these digits over all the same, and the
    library rejects the run. In every other case (no colour, or a value
    of any other form) the run carries no colour and is accepted. *)
Theorem run_color_six_hex_digits
    size suggestion lang target blockType
    (span : TextSpan) (seg : Segment) (run : TextRun) :
  In run (segmentRun size suggestion lang target blockType span seg) ->
  (forall c ds,
     color span = Some c -> hexColor 6 6 c ds ->
     run_color run = Some ds /\ Docx.hexColorValue ds = Some ds
     /\ Docx.acceptsRun run = true)
  /\ (forall c ds,
        color span = Some c -> hexColor 3 8 c ds ->
        List.length ds <> 6%nat ->
        run_color run = Some ds /\ Docx.hexColorValue ds = None
        /\ Docx.acceptsRun run = false)
  /\ ((color span = None
       \/ exists c, color span = Some c /\ ~ (exists ds, hexColor 3 8 c ds)) ->
      run_color run = None /\ Docx.acceptsRun run = true).
Proof.
  unfold segmentRun.
  destruct (Z.of_nat (List.length (seg_text seg)) =? 0); [intros []|].
  intros [<-|[]]. unfold Docx.acceptsRun. cbn [run_color run_underline].
  assert (Hunder : Docx.acceptsColor
                     (option_map snd
                        (fst (mapTextDecorationToDocx (textDecoration span))))
                   = true)
    by (destruct (textDecoration span) as [[| |]|]; reflexivity).
  rewrite Hunder, andb_true_r.
  assert (Hhex : forall c ds,
             color span = Some c -> hexColor 3 8 c ds ->
             (if truthy c && negb (str_eqb c (lit "default"))
                 && negb (str_eqb c (lit "inherit")) && testHexColor 3 8 c
              then Some (removeFirstHash c) else None) = Some ds).
  { intros c ds Hc Hhex.
    assert (Ht : testHexColor 3 8 c = true)
      by (apply (testHexColor_spec 3 8); now exists ds).
    destruct Hhex as [-> _]. rewrite Ht.
    change (removeFirstHash (35 :: ds)) with ds. reflexivity. }
  split; [|split].
  - intros c ds Hc [Hs [Hlen Hds]].
    assert (H38 : hexColor 3 8 c ds) by (repeat split; [exact Hs|lia|lia|exact Hds]).
    rewrite Hc, (Hhex c ds Hc H38). cbn [Docx.acceptsColor].
    rewrite (hexColorValue_digits ds Hds).
    replace (List.length ds =? 6)%nat with true
      by (symmetry; apply Nat.eqb_eq; lia).
    repeat split.
  - intros c ds Hc H38 Hne.
    rewrite Hc, (Hhex c ds Hc H38). cbn [Docx.acceptsColor].
    destruct H38 as [_ [_ Hds]].
    rewrite (hexColorValue_digits ds Hds).
    replace (List.length ds =? 6)%nat with false
      by (symmetry; apply Nat.eqb_neq; lia).
    repeat split.
  - intros [->|[c [-> Hnot]]]; [split; reflexivity|].
    destruct (testHexColor 3 8 c) eqn:Et.
    + exfalso. apply Hnot. now apply (testHexColor_spec 3 8).
    + rewrite !andb_false_r. split; reflexivity.
Qed.

Lemma run_color_six_hex_digits_witness :
  run_color
    (hd emptyRun
       (segmentRun None None en gdocs None
          {| text := lit "a"; isBold := None; isItalic := None;
             fontFamily := None; fontWeight := None;
             color := Some (lit "#cc0000"); textDecoration := None |}
          {| seg_text := lit "a"; seg_script := latin |}))
  = Some (lit "cc0000")
  /\ Docx.hexColorValue (lit "cc0000") = Some (lit "cc0000").
Proof.
  assert (Hhex : hexColor 6 6 (lit "#cc0000") (lit "cc0000")).
  { split; [reflexivity|]. split; [simpl; lia|].
    repeat constructor; unfold hexDigit; vm_compute; intuition discriminate. }
  destruct (proj1 (run_color_six_hex_digits None None en gdocs None
                     {| text := lit "a"; isBold := None; isItalic := None;
                        fontFamily := None; fontWeight := None;
                        color := Some (lit "#cc0000");
                        textDecoration := None |}
                     {| seg_text := lit "a"; seg_script := latin |}
                     _ (or_introl eq_refl))
                  (lit "#cc0000") (lit "cc0000") eq_refl Hhex)
    as [H1 [H2 _]].
  split; [exact H1 | exact H2].
Defined.

(** ** Table cells *)

(** X13. Every table cell is given exactly one paragraph, and the
    paragraph is never empty: it holds the runs of the cell's content or,
    when the content gives no run, one run with the empty text and the
    cell's font size. *)
Theorem cell_has_one_nonempty_paragraph
    (tb : FormattedTableBlock) (target : TargetApplication) (cell : TableCell) :
  let runs :=
    createTextRunsFromSpans (cell_fontSizeCategory cell)
      (cell_fontFamilySuggestion cell)
      (match cell_language cell with Some l => l | None => language tb end)
      target None (content cell) in
  exists p,
    children (docxCell tb target cell) = [p]
    /\ par_children p <> []
    /\ par_alignment p = mapAlignmentToDocx (cell_alignment cell)
    /\ ((runs <> [] /\ par_children p = runs)
        \/ (runs = []
            /\ exists r, par_children p = [r]
                         /\ run_text r = Some []
                         /\ run_size r
                            = Some (mapFontSizeToDocx
                                      (cell_fontSizeCategory cell) None))).
Proof.
  intros runs. unfold docxCell. cbn [children]. fold runs.
  destruct runs as [|r0 rs] eqn:E.
  - eexists. split; [reflexivity|]. simpl.
    split; [discriminate|]. split; [reflexivity|]. right.
    split; [reflexivity|]. eexists. split; [reflexivity|]. split; reflexivity.
  - eexists. split; [reflexivity|]. simpl.
    split; [discriminate|]. split; [reflexivity|]. left.
    split; [discriminate|reflexivity].
Qed.

(** X14. A cell is shaded with its background colour when that
    colour is a hash sign followed by six hexadecimal digits: the fill is
    the six digits, and the library accepts the fill and the colour
    [auto] that goes with it. When the background is a hash sign followed
    by three, four or five hexadecimal digits, the source hands these
    digits over as the fill all the same, and the library rejects the
    cell. In every other case the cell gets no shading. *)
Theorem cell_shading_six_hex_digits
    (tb : FormattedTableBlock) (target : TargetApplication) (cell : TableCell) :
  (forall bg ds,
     backgroundColor cell = Some bg -> hexColor 6 6 bg ds ->
     shading (docxCell tb target cell)
     = Some {| shading_type := CLEAR; shading_fill := ds;
               shading_color := lit "auto" |}
     /\ Docx.hexColorValue ds = Some ds
     /\ Docx.hexColorValue (lit "auto") = Some (lit "auto"))
  /\ (forall bg ds,
        backgroundColor cell = Some bg -> hexColor 3 6 bg ds ->
        List.length ds <> 6%nat ->
        shading (docxCell tb target cell)
        = Some {| shading_type := CLEAR; shading_fill := ds;
                  shading_color := lit "auto" |}
        /\ Docx.hexColorValue ds = None
        /\ Docx.acceptsCell (docxCell tb target cell) = false)
  /\ ((backgroundColor cell = None
       \/ exists bg, backgroundColor cell = Some bg
                     /\ ~ (exists ds, hexColor 3 6 bg ds)) ->
      shading (docxCell tb target cell) = None).
Proof.
  assert (Hhex : forall bg ds,
             backgroundColor cell = Some bg -> hexColor 3 6 bg ds ->
             shading (docxCell tb target cell)
             = Some {| shading_type := CLEAR; shading_fill := ds;
                       shading_color := lit "auto" |}).
  { intros bg ds Hbg Hhex. unfold docxCell. cbn [shading]. rewrite Hbg.
    assert (Ht : testHexColor 3 6 bg = true)
      by (apply (testHexColor_spec 3 6); now exists ds).
    destruct Hhex as [-> _]. rewrite Ht.
    change (removeFirstHash (35 :: ds)) with ds. reflexivity. }
  split; [|split].
  - intros bg ds Hbg [Hs [Hlen Hds]].
    rewrite (Hhex bg ds Hbg)
      by (repeat split; [exact Hs|lia|lia|exact Hds]).
    rewrite (hexColorValue_digits ds Hds).
    replace (List.length ds =? 6)%nat with true
      by (symmetry; apply Nat.eqb_eq; lia).
    repeat split.
  - intros bg ds Hbg H36 Hne.
    pose proof (Hhex bg ds Hbg H36) as Hsh.
    destruct H36 as [_ [_ Hds]].
    assert (Hv : Docx.hexColorValue ds = None).
    { rewrite (hexColorValue_digits ds Hds).
      now replace (List.length ds =? 6)%nat with false
        by (symmetry; apply Nat.eqb_neq; lia). }
    split; [exact Hsh|]. split; [exact Hv|].
    unfold Docx.acceptsCell. rewrite Hsh.
    cbn [shading_fill Docx.acceptsColor]. rewrite Hv.
    cbn [andb]. now rewrite andb_false_r.
  - intros [Hbg|[bg [Hbg Hnot]]]; unfold docxCell; cbn [shading]; rewrite Hbg;
      [reflexivity|].
    destruct (testHexColor 3 6 bg) eqn:Et.
    + exfalso. apply Hnot. now apply (testHexColor_spec 3 6).
    + now rewrite andb_false_r.
Qed.

(** ** Exact arithmetic on small integers *)

Lemma shr_1_even (z : Z) :
  0 <= z ->
  shr_1 {| shr_m := 2 * z; shr_r := false; shr_s := false |}
  = {| shr_m := z; shr_r := false; shr_s := false |}.
Proof. destruct z; simpl; try reflexivity; lia. Qed.

Lemma iter_pos_shr_1_exact (n : positive) :
  forall z,
    0 <= z ->
    iter_pos shr_1 n {| shr_m := z * 2 ^ Zpos n; shr_r := false; shr_s := false |}
    = {| shr_m := z; shr_r := false; shr_s := false |}.
Proof.
  induction n as [n IH|n IH|]; intros z Hz; cbn [iter_pos].
  - assert (E : 2 ^ Zpos n~1 = 2 * (2 ^ Zpos n * 2 ^ Zpos n))
      by (rewrite <- Z.pow_add_r, <- Z.pow_succ_r by lia; f_equal; lia).
    rewrite E.
    replace (z * (2 * (2 ^ Zpos n * 2 ^ Zpos n)))
      with (2 * ((z * 2 ^ Zpos n) * 2 ^ Zpos n)) by ring.
    assert (0 <= 2 ^ Zpos n) by (apply Z.pow_nonneg; lia).
    rewrite shr_1_even by (apply Z.mul_nonneg_nonneg; [|lia];
                           apply Z.mul_nonneg_nonneg; lia).
    rewrite IH by (apply Z.mul_nonneg_nonneg; lia).
    now apply IH.
  - assert (E : 2 ^ Zpos n~0 = 2 ^ Zpos n * 2 ^ Zpos n)
      by (rewrite <- Z.pow_add_r by lia; f_equal; lia).
    rewrite E, Z.mul_assoc.
    assert (0 <= 2 ^ Zpos n) by (apply Z.pow_nonneg; lia).
    rewrite IH by (apply Z.mul_nonneg_nonneg; lia).
    now apply IH.
  - replace (z * 2 ^ 1) with (2 * z) by lia. now apply shr_1_even.
Qed.

Lemma digits2_pos_upper (p : positive) : Zpos p < 2 ^ Zpos (digits2_pos p).
Proof.
  induction p as [p IH|p IH|]; simpl digits2_pos.
  - rewrite Pos2Z.inj_succ, Z.pow_succ_r by lia. lia.
  - rewrite Pos2Z.inj_succ, Z.pow_succ_r by lia. lia.
  - reflexivity.
Qed.

Lemma digits2_pos_unique (p : positive) (d : Z) :
  2 ^ (d - 1) <= Zpos p < 2 ^ d -> Zpos (digits2_pos p) = d.
Proof.
  intros [Hlo Hhi].
  pose proof (digits2_pos_lower p) as Hlo'.
  pose proof (digits2_pos_upper p) as Hhi'.
  destruct (Z.lt_trichotomy (Zpos (digits2_pos p)) d) as [H|[H|H]];
    [exfalso|exact H|exfalso].
  - assert (2 ^ Zpos (digits2_pos p) <= 2 ^ (d - 1))
      by (apply Z.pow_le_mono_r; lia).
    lia.
  - assert (2 ^ d <= 2 ^ (Zpos (digits2_pos p) - 1))
      by (apply Z.pow_le_mono_r; lia).
    lia.
Qed.

Lemma digits2_pos_le_53 (p : positive) :
  Zpos p < 2 ^ 53 -> Zpos (digits2_pos p) <= 53.
Proof.
  intros Hn. pose proof (digits2_pos_lower p) as Hlow.
  destruct (Z.le_gt_cases (Zpos (digits2_pos p)) 53) as [H|H]; [exact H|].
  exfalso.
  assert (2 ^ 53 <= 2 ^ (Zpos (digits2_pos p) - 1))
    by (apply Z.pow_le_mono_r; lia).
  lia.
Qed.

(** Rounding a mantissa that is a 53-bit mantissa followed by [k] zero
    bits drops the zero bits and nothing else. *)
Lemma binary_round_aux_shift (sx : bool) (mx : Z) (m0 : positive) (k e : Z) :
  0 <= k ->
  mx = Zpos m0 * 2 ^ k ->
  Zpos (digits2_pos m0) = 53 ->
  -1074 <= e + k <= 971 ->
  binary_round_aux prec emax sx mx e loc_Exact = S754_finite sx m0 (e + k).
Proof.
  intros Hk Hmx Hd He.
  assert (Hpos : 0 < mx) by (subst mx; apply Z.mul_pos_pos; [lia|];
                             apply Z.pow_pos_nonneg; lia).
  destruct mx as [|M|M]; try lia.
  assert (HdM : Zpos (digits2_pos M) = 53 + k).
  { apply digits2_pos_unique. rewrite Hmx.
    pose proof (digits2_pos_lower m0) as Hlo.
    pose proof (digits2_pos_upper m0) as Hhi. rewrite Hd in Hlo, Hhi.
    replace (53 + k - 1) with (52 + k) by lia.
    rewrite !Z.pow_add_r by lia. simpl (53 - 1) in Hlo.
    assert (0 < 2 ^ k) by (apply Z.pow_pos_nonneg; lia). nia. }
  unfold binary_round_aux. unfold shr_fexp at 1. cbn [Zdigits2]. rewrite HdM.
  assert (Hf : fexp prec emax (53 + k + e) - e = k)
    by (unfold fexp, emin, prec, emax; lia).
  rewrite Hf. cbn [shr_record_of_loc].
  assert (Hshr : shr {| shr_m := Zpos M; shr_r := false; shr_s := false |} e k
                 = ({| shr_m := Zpos m0; shr_r := false; shr_s := false |},
                    e + k)).
  { unfold shr. destruct k as [|kp|kp]; [| |lia].
    - rewrite Z.add_0_r. f_equal. f_equal. lia.
    - rewrite Hmx. now rewrite iter_pos_shr_1_exact by lia. }
  rewrite Hshr. cbn [shr_m loc_of_shr_record round_nearest_even].
  rewrite shr_fexp_exact by lia. cbn [shr_m].
  replace (e + k <=? emax - prec) with true
    by (symmetry; apply Z.leb_le; unfold emax, prec; lia).
  reflexivity.
Qed.

(** The number of a positive integer below [2^53]: its 53-bit mantissa
    and its exponent. *)
Lemma ofZ_canonical (p : positive) :
  Zpos p < 2 ^ 53 ->
  exists m0,
    ofZ (Zpos p) = S754_finite false m0 (Zpos (digits2_pos p) - 53)
    /\ Zpos m0 = Zpos p * 2 ^ (53 - Zpos (digits2_pos p))
    /\ Zpos (digits2_pos m0) = 53.
Proof.
  intros Hn. pose proof (digits2_pos_le_53 p Hn) as Hd.
  assert (Hf : fexp prec emax (Zpos (digits2_pos p) + 0)
               = Zpos (digits2_pos p) - 53)
    by (unfold fexp, emin, prec, emax; lia).
  unfold ofZ, binary_normalize, binary_round, shl_align. rewrite Hf.
  destruct (Zpos (digits2_pos p) - 53 - 0) as [|q|q] eqn:E; [| lia |].
  - cbv beta iota. exists p.
    assert (E53 : Zpos (digits2_pos p) = 53) by lia.
    rewrite binary_round_aux_exact by lia. rewrite E53.
    split; [reflexivity|]. split; [lia | reflexivity].
  - assert (E' : Zpos (digits2_pos p) - 53 = Zneg q) by lia.
    rewrite E'. cbv beta iota. exists (Pos.iter xO p q).
    assert (Hq : Zpos (digits2_pos (Pos.iter xO p q)) = 53)
      by (rewrite digits2_pos_iter_xO; lia).
    rewrite binary_round_aux_exact by lia.
    split; [reflexivity|]. split; [|exact Hq].
    rewrite Zpos_iter_xO. f_equal. f_equal. lia.
Qed.

Lemma ofZ_zero : ofZ 0 = S754_zero false.
Proof. reflexivity. Qed.

(** Multiplication is exact on integers whose product stays below
    [2^53]. *)
Lemma mul_ofZ (a b : Z) :
  0 <= a < 2 ^ 53 -> 0 <= b < 2 ^ 53 -> a * b < 2 ^ 53 ->
  mul (ofZ a) (ofZ b) = ofZ (a * b).
Proof.
  intros Ha Hb Hab.
  destruct a as [|pa|pa]; [|
    destruct b as [|pb|pb]; [| |lia] | lia].
  - destruct b as [|pb|pb]; [reflexivity| |lia].
    destruct (ofZ_canonical pb) as [mb [Eb _]]; [lia|].
    simpl (0 * _). unfold mul. rewrite Eb. reflexivity.
  - destruct (ofZ_canonical pa) as [ma [Ea _]]; [lia|].
    rewrite Z.mul_0_r. unfold mul. rewrite Ea. reflexivity.
  - destruct (ofZ_canonical pa) as [ma [Ea [Hma Hda]]]; [lia|].
    destruct (ofZ_canonical pb) as [mb [Eb [Hmb Hdb]]]; [lia|].
    change (Zpos pa * Zpos pb) with (Zpos (pa * pb)) in *.
    destruct (ofZ_canonical (pa * pb)) as [m0 [E0 [Hm0 Hd0]]]; [lia|].
    pose proof (digits2_pos_le_53 pa ltac:(lia)) as Hlea.
    pose proof (digits2_pos_le_53 pb ltac:(lia)) as Hleb.
    pose proof (digits2_pos_le_53 (pa * pb) ltac:(lia)) as Hle0.
    set (da := Zpos (digits2_pos pa)) in *.
    set (db := Zpos (digits2_pos pb)) in *.
    set (d0 := Zpos (digits2_pos (pa * pb))) in *.
    assert (Hrel : da + db - 1 <= d0).
    { pose proof (digits2_pos_lower pa) as La.
      pose proof (digits2_pos_lower pb) as Lb.
      pose proof (digits2_pos_upper (pa * pb)) as U0.
      fold da in La. fold db in Lb. fold d0 in U0.
      destruct (Z.le_gt_cases (da + db - 1) d0) as [H|H]; [exact H|].
      exfalso.
      assert (H1 : 2 ^ d0 <= 2 ^ (da + db - 2))
        by (apply Z.pow_le_mono_r; lia).
      assert (1 <= da) by (unfold da; lia).
      assert (1 <= db) by (unfold db; lia).
      replace (da + db - 2) with ((da - 1) + (db - 1)) in H1 by lia.
      rewrite Z.pow_add_r in H1 by lia.
      assert (2 ^ (da - 1) * 2 ^ (db - 1) <= Zpos pa * Zpos pb)
        by (apply Z.mul_le_mono_nonneg; try lia;
            apply Z.pow_nonneg; lia).
      change (Zpos pa * Zpos pb) with (Zpos (pa * pb)) in *. lia. }
    unfold mul. rewrite Ea, Eb, E0. unfold SFmul. cbn [xorb].
    rewrite (binary_round_aux_shift false _ m0 (d0 - da - db + 53)); try lia.
    + f_equal. lia.
    + rewrite Pos2Z.inj_mul, Hma, Hmb, Hm0, Pos2Z.inj_mul.
      replace (Zpos pa * 2 ^ (53 - da) * (Zpos pb * 2 ^ (53 - db)))
        with (Zpos pa * Zpos pb * (2 ^ (53 - da) * 2 ^ (53 - db))) by ring.
      rewrite <- (Z.mul_assoc (Zpos pa * Zpos pb)). f_equal.
      rewrite <- !Z.pow_add_r by lia. f_equal. lia.
Qed.

(** [Math.round] leaves an integer below [2^53] as it is. *)
Lemma Math_round_ofZ (n : Z) :
  0 <= n < 2 ^ 53 -> Math_round (ofZ n) = ofZ n.
Proof.
  intros Hn. destruct n as [|p|p]; [reflexivity| |lia].
  destruct (ofZ_canonical p) as [m0 [E0 [Hm0 Hd0]]]; [lia|].
  pose proof (digits2_pos_le_53 p ltac:(lia)) as Hle.
  rewrite E0. unfold Math_round.
  destruct (Z.leb_spec 0 (Zpos (digits2_pos p) - 53)) as [H|H];
    [reflexivity|].
  rewrite <- E0. unfold ofZ. f_equal. cbn [cond_Zopp]. rewrite Hm0.
  replace (- (Zpos (digits2_pos p) - 53)) with (53 - Zpos (digits2_pos p))
    by lia.
  replace (1 - (Zpos (digits2_pos p) - 53))
    with (1 + (53 - Zpos (digits2_pos p))) by lia.
  rewrite Z.pow_add_r by lia.
  set (w := 2 ^ (53 - Zpos (digits2_pos p))).
  assert (Hw : 0 < w) by (apply Z.pow_pos_nonneg; lia).
  replace (2 * (Zpos p * w) + w) with ((2 * Zpos p + 1) * w) by ring.
  rewrite Z.pow_1_r, Z.div_mul_cancel_r by lia.
  symmetry. apply (Z.div_unique _ _ _ 1); lia.
Qed.

Lemma div_eucl_exact (q b : Z) : b <> 0 -> Z.div_eucl (q * b) b = (q, 0).
Proof.
  intros Hb.
  assert (E : Z.div_eucl (q * b) b = ((q * b) / b, (q * b) mod b))
    by (unfold Z.div, Z.modulo; now destruct (Z.div_eucl (q * b) b)).
  now rewrite E, Z.div_mul, Z.mod_mul.
Qed.

Lemma new_location_exact (nb : Z) : new_location nb 0 = loc_Exact.
Proof.
  unfold new_location, new_location_even, new_location_odd.
  now destruct (Z.even nb).
Qed.

(** Division is exact when the quotient is a 53-bit mantissa followed by
    [k] zero bits. *)
Lemma SFdiv_exact (m1 m2 m0 : positive) (e1 e2 k : Z) :
  let e' :=
    Z.min (fexp prec emax (Zpos (digits2_pos m1) + e1
                           - (Zpos (digits2_pos m2) + e2)))
          (e1 - e2) in
  0 <= k ->
  Zpos m1 * 2 ^ (e1 - e2 - e') = Zpos m0 * 2 ^ k * Zpos m2 ->
  Zpos (digits2_pos m0) = 53 ->
  -1074 <= e' + k <= 971 ->
  SFdiv prec emax (S754_finite false m1 e1) (S754_finite false m2 e2)
  = S754_finite false m0 (e' + k).
Proof.
  intros e' Hk Hq Hd He.
  unfold SFdiv, SFdiv_core_binary. cbn [Zdigits2 xorb]. fold e'.
  assert (Hs : 0 <= e1 - e2 - e') by (unfold e'; lia).
  assert (Hm : match e1 - e2 - e' with
               | Zpos _ => Z.shiftl (Zpos m1) (e1 - e2 - e')
               | 0 => Zpos m1
               | Zneg _ => 0
               end = Zpos m0 * 2 ^ k * Zpos m2).
  { rewrite <- Hq. destruct (e1 - e2 - e') as [|s|s] eqn:Es; [lia| |lia].
    now rewrite Z.shiftl_mul_pow2 by lia. }
  rewrite Hm, div_eucl_exact by lia.
  rewrite new_location_exact.
  now apply binary_round_aux_shift.
Qed.

(** A numeral without fraction, below [2^53], is read exactly. *)
Lemma ofDecimal_integer (n : Z) :
  0 <= n < 2 ^ 53 -> ofDecimal n 0 = ofZ n.
Proof.
  intros Hn. destruct n as [|p|p]; [reflexivity| |lia].
  destruct (ofZ_canonical p) as [m0 [E0 [Hm0 Hd0]]]; [lia|].
  pose proof (digits2_pos_le_53 p ltac:(lia)) as Hle.
  unfold ofDecimal. change (Z.to_pos (10 ^ Z.of_nat 0)) with 1%positive.
  rewrite E0.
  assert (He : Z.min (fexp prec emax (Zpos (digits2_pos p) + 0
                                      - (Zpos (digits2_pos 1) + 0)))
                     (0 - 0)
               = Zpos (digits2_pos p) - 54)
    by (unfold fexp, emin, prec, emax; simpl digits2_pos; lia).
  rewrite (SFdiv_exact p 1 m0 0 0 1); rewrite ?He; try lia.
  - f_equal. lia.
  - rewrite Hm0, Z.mul_1_r, <- Z.mul_assoc. f_equal.
    rewrite <- Z.pow_add_r by lia. f_equal. lia.
Qed.

(** Dividing a product by one of its factors gives the other factor. *)
Lemma div_ofZ (a b : Z) :
  0 < a -> 0 < b -> a * b < 2 ^ 53 ->
  div (ofZ (a * b)) (ofZ b) = ofZ a.
Proof.
  intros Ha Hb Hab.
  destruct a as [|pa|pa]; try lia. destruct b as [|pb|pb]; try lia.
  assert (Zpos pa < 2 ^ 53) by nia.
  assert (Zpos pb < 2 ^ 53) by nia.
  change (Zpos pa * Zpos pb) with (Zpos (pa * pb)) in *.
  destruct (ofZ_canonical pa) as [ma [Ea [Hma Hda]]]; [lia|].
  destruct (ofZ_canonical pb) as [mb [Eb [Hmb Hdb]]]; [lia|].
  destruct (ofZ_canonical (pa * pb)) as [m0 [E0 [Hm0 Hd0]]]; [lia|].
  pose proof (digits2_pos_le_53 pa ltac:(lia)) as Hlea.
  pose proof (digits2_pos_le_53 pb ltac:(lia)) as Hleb.
  pose proof (digits2_pos_le_53 (pa * pb) ltac:(lia)) as Hle0.
  set (da := Zpos (digits2_pos pa)) in *.
  set (db := Zpos (digits2_pos pb)) in *.
  set (d0 := Zpos (digits2_pos (pa * pb))) in *.
  assert (Hrel : d0 <= da + db).
  { pose proof (digits2_pos_upper pa) as Ua.
    pose proof (digits2_pos_upper pb) as Ub.
    pose proof (digits2_pos_lower (pa * pb)) as L0.
    fold da in Ua. fold db in Ub. fold d0 in L0.
    destruct (Z.le_gt_cases d0 (da + db)) as [H1|H1]; [exact H1|].
    exfalso.
    assert (H2 : 2 ^ (da + db) <= 2 ^ (d0 - 1))
      by (apply Z.pow_le_mono_r; lia).
    assert (1 <= da) by (unfold da; lia).
    assert (1 <= db) by (unfold db; lia).
    rewrite Z.pow_add_r in H2 by lia.
    assert (Zpos pa * Zpos pb < 2 ^ da * 2 ^ db)
      by (apply Z.mul_lt_mono_nonneg; lia).
    change (Zpos pa * Zpos pb) with (Zpos (pa * pb)) in *. lia. }
  unfold div. rewrite E0, Eb, Ea.
  assert (He : Z.min (fexp prec emax (Zpos (digits2_pos m0) + (d0 - 53)
                                      - (Zpos (digits2_pos mb) + (db - 53))))
                     (d0 - 53 - (db - 53))
               = d0 - db - 53)
    by (rewrite Hd0, Hdb; unfold fexp, emin, prec, emax; lia).
  rewrite (SFdiv_exact m0 mb ma (d0 - 53) (db - 53) (da + db - d0));
    rewrite ?He; try lia.
  - f_equal. lia.
  - rewrite Hm0, Hma, Hmb, Pos2Z.inj_mul.
    replace (d0 - 53 - (db - 53) - (d0 - db - 53)) with 53 by lia.
    replace (Zpos pa * Zpos pb * 2 ^ (53 - d0) * 2 ^ 53)
      with (Zpos pa * Zpos pb * (2 ^ (53 - d0) * 2 ^ 53)) by ring.
    replace (Zpos pa * 2 ^ (53 - da) * 2 ^ (da + db - d0)
             * (Zpos pb * 2 ^ (53 - db)))
      with (Zpos pa * Zpos pb
            * (2 ^ (53 - da) * 2 ^ (da + db - d0) * 2 ^ (53 - db))) by ring.
    f_equal. rewrite <- !Z.pow_add_r by lia. f_equal. lia.
Qed.

(** ** Lengths in points *)

Lemma spanClass_spec (cls : codeunit -> bool) (s a b : jsstring) :
  spanClass cls s = (a, b) -> s = a ++ b /\ forallb cls a = true.
Proof.
  revert a b. induction s as [|c s IH]; intros a b; simpl.
  - intros H. injection H as <- <-. split; reflexivity.
  - destruct (cls c) eqn:Ec.
    + destruct (spanClass cls s) as [a' b']. intros H. injection H as <- <-.
      destruct (IH a' b' eq_refl) as [-> Ha]. simpl. rewrite Ec. now split.
    + intros H. injection H as <- <-. split; reflexivity.
Qed.

Lemma spanClass_stop (cls : codeunit -> bool) (a b : jsstring) :
  forallb cls a = true ->
  match b with c :: _ => cls c = false | [] => True end ->
  spanClass cls (a ++ b) = (a, b).
Proof.
  intros Ha Hb. induction a as [|x a IH]; simpl.
  - destruct b as [|c b]; [reflexivity | simpl; now rewrite Hb].
  - simpl in Ha. apply andb_true_iff in Ha as [Hx Ha].
    now rewrite Hx, (IH Ha).
Qed.

Lemma forallb_digitString (ds : jsstring) :
  truthy ds = true -> forallb isDigit ds = true -> digitString ds.
Proof.
  intros Ht Hd. split; [now destruct ds|].
  apply Forall_forall. intros c Hc. apply isDigit_spec.
  now apply (proj1 (forallb_forall _ _) Hd).
Qed.

Lemma digitString_forallb (ds : jsstring) :
  digitString ds -> truthy ds = true /\ forallb isDigit ds = true.
Proof.
  intros [Hne Hd]. split; [destruct ds; [now elim Hne | reflexivity]|].
  apply forallb_forall. intros c Hc. apply isDigit_spec.
  now apply (proj1 (Forall_forall _ _) Hd).
Qed.

Lemma match_decimal_pt_Some (s m : jsstring) :
  match_decimal_pt s = Some m -> isPointLength s.
Proof.
  unfold match_decimal_pt.
  destruct (spanClass isDigit s) as [ip rest] eqn:E.
  destruct (spanClass_spec _ _ _ _ E) as [-> Hip].
  destruct (negb (truthy ip)) eqn:Et; [discriminate|].
  apply negb_false_iff in Et.
  destruct (str_eqb rest (lit "pt")) eqn:Ept.
  - intros _. apply str_eqb_eq in Ept. subst rest.
    exists ip. split; [now apply forallb_digitString | now left].
  - destruct rest as [|c rest']; [discriminate|].
    destruct (Z.eqb_spec c 46) as [->|]; [|discriminate].
    destruct (spanClass isDigit rest') as [fp rest''] eqn:E'.
    destruct (spanClass_spec _ _ _ _ E') as [-> Hfp].
    destruct (truthy fp && str_eqb rest'' (lit "pt")) eqn:E2; [|discriminate].
    intros _. apply andb_true_iff in E2 as [Hf Hpt].
    apply str_eqb_eq in Hpt. subst rest''.
    exists ip. split; [now apply forallb_digitString|]. right.
    exists fp. split; [now apply forallb_digitString | reflexivity].
Qed.

Lemma match_decimal_pt_digits (ds : jsstring) :
  digitString ds -> match_decimal_pt (ds ++ lit "pt") = Some ds.
Proof.
  intros H. destruct (digitString_forallb ds H) as [Ht Hd].
  unfold match_decimal_pt.
  rewrite (spanClass_stop isDigit ds (lit "pt") Hd) by reflexivity.
  now rewrite Ht.
Qed.

Lemma endsWith_app (m suffix : jsstring) :
  JSFloat.endsWith (m ++ suffix) suffix = true.
Proof.
  unfold JSFloat.endsWith. rewrite length_app.
  replace (List.length m + List.length suffix - List.length suffix)%nat
    with (List.length m) by lia.
  rewrite skipn_app, skipn_all, Nat.sub_diag. simpl.
  rewrite str_eqb_refl, andb_true_r. apply Nat.leb_le. lia.
Qed.

Lemma isPointLength_endsWith (s : jsstring) :
  isPointLength s -> JSFloat.endsWith s (lit "pt") = true.
Proof.
  intros [ip [_ [->|[fp [_ ->]]]]].
  - apply endsWith_app.
  - replace (ip ++ 46 :: fp ++ lit "pt") with ((ip ++ 46 :: fp) ++ lit "pt")
      by (now rewrite <- app_assoc).
    apply endsWith_app.
Qed.

Lemma parseUnitValueToTwips_not_points (s : jsstring) (d : number) :
  s <> lit "0" -> ~ isPointLength s -> parseUnitValueToTwips (Some s) d = d.
Proof.
  intros H0 Hs. unfold parseUnitValueToTwips.
  destruct (negb (truthy s)); [reflexivity|].
  destruct (str_eqb s (lit "0")) eqn:E0;
    [apply str_eqb_eq in E0; contradiction|].
  destruct (str_eqb s (lit "0pt")) eqn:E0pt.
  - apply str_eqb_eq in E0pt. elim Hs. subst s.
    exists (lit "0"). split; [|now left].
    split; [discriminate|]. constructor; [simpl; lia | constructor].
  - simpl. destruct (match_decimal_pt s) as [m|] eqn:Em; [|reflexivity].
    elim Hs. eapply match_decimal_pt_Some, Em.
Qed.

(** X15. A length that is not given in points is not understood: on an
    absent token, and on every string other than [0] that is not digits,
    an optional fraction and [pt] (so on every string that does not end in
    [pt], such as a length in [px]), [parseUnitValueToTwips] returns the
    default it was given. *)
Theorem length_not_in_points_gives_default (d : number) :
  parseUnitValueToTwips None d = d
  /\ (forall s, s <> lit "0" -> ~ isPointLength s ->
                parseUnitValueToTwips (Some s) d = d)
  /\ (forall s, s <> lit "0" -> JSFloat.endsWith s (lit "pt") = false ->
                parseUnitValueToTwips (Some s) d = d).
Proof.
  split; [reflexivity|].
  split; [intros s; apply parseUnitValueToTwips_not_points|].
  intros s H0 He. apply parseUnitValueToTwips_not_points; [exact H0|].
  intros Hp. apply isPointLength_endsWith in Hp. congruence.
Qed.

Lemma parseFloat_digits (ds : jsstring) :
  digitString ds -> parseFloat ds = ofDecimal (digitsValue ds) 0.
Proof.
  intros H. destruct (digitString_forallb ds H) as [Ht Hd].
  unfold parseFloat. rewrite (spanClass_all isDigit ds Hd).
  destruct ds; [discriminate Ht | reflexivity].
Qed.

Lemma digitsValue_nonneg_acc (ds : jsstring) :
  forall acc,
    0 <= acc -> Forall (fun c => 48 <= c <= 57) ds ->
    0 <= fold_left (fun a c => 10 * a + (c - 48)) ds acc.
Proof.
  induction ds as [|c ds IH]; intros acc Hacc Hd; cbn [fold_left];
    [exact Hacc|].
  apply IH; [|exact (Forall_inv_tail Hd)].
  pose proof (Forall_inv Hd) as Hc. cbv beta in Hc. lia.
Qed.

Lemma points_to_twips (ds : jsstring) (d : number) :
  digitString ds ->
  20 * digitsValue ds < 2 ^ 53 ->
  parseUnitValueToTwips (Some (ds ++ lit "pt")) d = ofZ (20 * digitsValue ds).
Proof.
  intros Hds Hlt.
  assert (H0 : 0 <= digitsValue ds)
    by (apply digitsValue_nonneg_acc; [lia | apply Hds]).
  unfold parseUnitValueToTwips.
  destruct ds as [|c0 ds'] eqn:Eds; [now destruct Hds|]. rewrite <- Eds in *.
  replace (negb (truthy (ds ++ lit "pt"))) with false
    by (rewrite Eds; reflexivity).
  destruct (str_eqb (ds ++ lit "pt") (lit "0")) eqn:E0.
  { apply str_eqb_eq in E0. apply (f_equal (@List.length _)) in E0.
    rewrite length_app in E0. simpl in E0. lia. }
  destruct (str_eqb (ds ++ lit "pt") (lit "0pt")) eqn:E0pt; cbn [orb].
  - apply str_eqb_eq in E0pt. apply (app_inv_tail (lit "pt") ds (lit "0")) in E0pt.
    rewrite E0pt. reflexivity.
  - rewrite (match_decimal_pt_digits ds Hds).
    replace (truthy ds) with true by (rewrite Eds; reflexivity).
    cbv zeta. rewrite (parseFloat_digits ds Hds).
    rewrite ofDecimal_integer by lia.
    replace (negb (isNaN (ofZ (digitsValue ds)))) with true.
    + rewrite mul_ofZ by lia. rewrite Math_round_ofZ by lia. f_equal. lia.
    + destruct (digitsValue ds) as [|p|p] eqn:Ep; [reflexivity| |lia].
      destruct (ofZ_canonical p) as [m0 [Ecan _]]; [lia|]. now rewrite Ecan.
Qed.

Lemma decimalDigits_digitString (N : Z) : digitString (decimalDigits N).
Proof.
  apply forallb_digitString; [|apply uintCodes_digits].
  pose proof (decimalDigits_nonempty N). now destruct (decimalDigits N).
Qed.

(** X16. Points become twips at twenty to the point: on the decimal
    digits of a natural number [N] followed by [pt],
    [parseUnitValueToTwips] returns [20 * N], whatever the default, as
    long as [20 * N] is below [2^53]. *)
Theorem whole_points_to_twips (N : Z) (d : number) :
  0 <= N -> 20 * N < 2 ^ 53 ->
  toZ (parseUnitValueToTwips (Some (decimalDigits N ++ lit "pt")) d)
  = Some (20 * N).
Proof.
  intros H0 Hlt.
  assert (Hds : digitString (decimalDigits N)).
  { apply forallb_digitString; [|apply uintCodes_digits].
    pose proof (decimalDigits_nonempty N).
    now destruct (decimalDigits N). }
  rewrite points_to_twips; rewrite ?digitsValue_decimalDigits; try lia;
    [|exact Hds].
  apply ofZ_exact. lia.
Qed.

Lemma whole_points_to_twips_witness :
  toZ (parseUnitValueToTwips (Some (decimalDigits 6 ++ lit "pt")) (ofZ 100))
  = Some (20 * 6).
Proof. apply (whole_points_to_twips 6 (ofZ 100)); lia. Defined.

(** ** Font sizes *)

Lemma decimalDigits_digits (N : Z) :
  decimalDigits N <> [] /\ forallb isDigit (decimalDigits N) = true.
Proof. split; [apply decimalDigits_nonempty | apply uintCodes_digits]. Qed.

(** X17. A well-formed size token decides the size, whatever the block
    type: on [pt] followed by the decimal digits of [N], with [N] below
    [2^52], [mapFontSizeToDocx] returns [2 * N] half-points for a
    paragraph, for a heading of any level and when no block type is
    given. *)
Theorem size_token_gives_half_points
    (N : Z) (blockType : option ParagraphAndHeadingBlockType) :
  0 <= N < 2 ^ 52 ->
  toZ (mapFontSizeToDocx (Some (lit "pt" ++ decimalDigits N)) blockType)
  = Some (2 * N).
Proof.
  intros HN. destruct (decimalDigits_digits N) as [Hne Hd].
  assert (Hpt : parsePtStringToNumber (Some (lit "pt" ++ decimalDigits N))
                  (ofZ 11) = ofZ N).
  { rewrite parsePtStringToNumber_digits by assumption.
    now rewrite digitsValue_decimalDigits by lia. }
  assert (Ht : test_pt (lit "pt" ++ decimalDigits N) = true)
    by (unfold test_pt; now rewrite match_pt_digits_point).
  unfold mapFontSizeToDocx. rewrite Hpt, Ht, andb_false_r.
  assert (E : mul (ofZ N) (ofZ 2) = ofZ (N * 2))
    by (apply mul_ofZ; lia).
  replace (2 * N) with (N * 2) by lia.
  destruct blockType; rewrite E; apply ofZ_exact; lia.
Qed.

Lemma size_token_gives_half_points_witness :
  toZ (mapFontSizeToDocx (Some (lit "pt" ++ decimalDigits 22)) (Some heading3))
  = Some (2 * 22).
Proof. apply (size_token_gives_half_points 22 (Some heading3)). lia. Defined.

(** X18. The block type only decides the size when the token is malformed:
    a non-empty token that is not of the form [pt<N>] gives 44 half-points
    for [heading1], 32 for [heading2], 26 for [heading3] and 22 for every
    other block type and when no block type is given; an absent or empty
    token gives 22, headings included. *)
Theorem malformed_size_token_falls_back
    (category : jsstring) (blockType : ParagraphAndHeadingBlockType) :
  (category <> [] -> ~ isPointToken category ->
   toZ (mapFontSizeToDocx (Some category) (Some blockType))
   = Some match blockType with
          | heading1 => 44
          | heading2 => 32
          | heading3 => 26
          | _ => 22
          end
   /\ toZ (mapFontSizeToDocx (Some category) None) = Some 22)
  /\ toZ (mapFontSizeToDocx None (Some blockType)) = Some 22
  /\ toZ (mapFontSizeToDocx (Some []) (Some blockType)) = Some 22.
Proof.
  split; [|split; reflexivity].
  intros Hne Hnot.
  assert (Hm : match_pt_digits category = None).
  { destruct (match_pt_digits category) eqn:E; [|reflexivity].
    elim Hnot. eapply match_pt_digits_Some, E. }
  unfold mapFontSizeToDocx, test_pt, parsePtStringToNumber. rewrite Hm.
  destruct category; [now elim Hne|]. simpl truthy. cbn [negb andb].
  split; [destruct blockType|]; reflexivity.
Qed.

(** ** Borders and margins of a cell *)

(** X19. A border width given in whole points comes out as that number:
    when the first present of the cell's and the table's width tokens is
    the decimal digits of [N] followed by [pt], every edge of the cell has
    the size [N] (twenty twips to the point on the way in, and back on the
    way out), as long as [20 * N] is below [2^53]. *)
Theorem border_width_in_points
    (tb : FormattedTableBlock) (target : TargetApplication) (cell : TableCell)
    (N : Z) :
  0 <= N -> 20 * N < 2 ^ 53 ->
  firstPresent [cell_borderWidth cell; borderWidth tb] (lit "1pt")
  = decimalDigits N ++ lit "pt" ->
  Forall (fun e => toZ (border_size e) = Some N)
         (edges (borders (docxCell tb target cell))).
Proof.
  intros H0 Hlt Htok.
  assert (Hds : digitString (decimalDigits N)).
  { destruct (decimalDigits_digits N) as [Hne Hd].
    apply forallb_digitString; [now destruct (decimalDigits N) | exact Hd]. }
  assert (Hsize : toZ (div (parseUnitValueToTwips
                              (Some (decimalDigits N ++ lit "pt")) (ofZ 20))
                           (ofZ 20)) = Some N).
  { rewrite points_to_twips; rewrite ?digitsValue_decimalDigits; try lia;
      [|exact Hds].
    destruct (Z.eq_dec N 0) as [->|Hn]; [reflexivity|].
    replace (20 * N) with (N * 20) by lia.
    rewrite div_ofZ by lia. apply ofZ_exact. lia. }
  unfold edges, docxCell. cbn [borders border_top border_bottom border_left
                                border_right].
  rewrite jsOr_firstPresent, Htok.
  repeat constructor; exact Hsize.
Qed.

Lemma border_width_in_points_witness :
  Forall (fun e => toZ (border_size e) = Some 3)
         (edges (borders
                   (docxCell
                      {| language := en; rows := []; caption := None;
                         tableWidth := None; cellPadding := None;
                         borderColor := None;
                         borderWidth := Some (lit "3pt") |}
                      word (plainCell "x" None)))).
Proof.
  apply (border_width_in_points _ word (plainCell "x" None) 3); try lia.
  reflexivity.
Defined.

(** X20. The four margins of a cell are always equal. Without a cell
    padding on the table they are 80 twips; with a padding in whole
    points they are twenty times its number; and with a padding that is
    not a length in points (a length in [px], say) they are zero, not
    80. *)
Theorem cell_margins
    (tb : FormattedTableBlock) (target : TargetApplication) (cell : TableCell) :
  let m := margins (docxCell tb target cell) in
  margin_bottom m = margin_top m
  /\ margin_left m = margin_top m
  /\ margin_right m = margin_top m
  /\ (cellPadding tb = None -> toZ (margin_top m) = Some 80)
  /\ (forall N, 0 <= N -> 20 * N < 2 ^ 53 ->
                cellPadding tb = Some (decimalDigits N ++ lit "pt") ->
                toZ (margin_top m) = Some (20 * N))
  /\ (forall s, cellPadding tb = Some s -> s <> [] -> s <> lit "0" ->
                ~ isPointLength s -> toZ (margin_top m) = Some 0).
Proof.
  intros m. subst m. unfold docxCell. cbn [margins].
  split; [|split; [|split]]; try (destruct (truthyOpt (cellPadding tb));
                                  reflexivity).
  split; [|split].
  - intros ->. reflexivity.
  - intros N H0 Hlt ->.
    assert (Ht : truthyOpt (Some (decimalDigits N ++ lit "pt")) = true).
    { simpl. destruct (decimalDigits N); reflexivity. }
    rewrite Ht. cbn [margin_top].
    rewrite points_to_twips; rewrite ?digitsValue_decimalDigits; try lia;
      [|apply decimalDigits_digitString].
    apply ofZ_exact. lia.
  - intros s -> Hne H0 Hnot.
    assert (Ht : truthyOpt (Some s) = true) by (destruct s; [now elim Hne|reflexivity]).
    rewrite Ht. cbn [margin_top].
    now rewrite parseUnitValueToTwips_not_points.
Qed.

(** ** Paragraph blocks and the document body *)


(** X22. The space after a paragraph: twenty times the number for a
    token in whole points; and, for an absent token or one that is not a
    length in points, 200 twips for a heading and 100 for any other
    block. *)
Theorem paragraph_space_after
    (target : TargetApplication) (paraBlock : FormattedParagraphBlock) :
  exists p sp,
    paragraphContent target paraBlock = [BodyPar p]
    /\ body_spacing p = Some sp
    /\ (forall N, 0 <= N -> 20 * N < 2 ^ 53 ->
                  spaceAfter paraBlock = Some (decimalDigits N ++ lit "pt") ->
                  toZ (spacing_after sp) = Some (20 * N))
    /\ ((spaceAfter paraBlock = None
         \/ exists s, spaceAfter paraBlock = Some s /\ s <> lit "0"
                      /\ ~ isPointLength s) ->
        toZ (spacing_after sp)
        = Some (if startsWithHeading (blockType paraBlock) then 200 else 100)).
Proof.
  unfold paragraphContent. eexists. eexists.
  split; [reflexivity|]. split; [reflexivity|]. cbn [spacing_after]. split.
  - intros N H0 Hlt ->.
    rewrite points_to_twips; rewrite ?digitsValue_decimalDigits; try lia;
      [|apply decimalDigits_digitString].
    apply ofZ_exact. lia.
  - intros [->|[s [-> [H0 Hnot]]]].
    + simpl. now destruct (startsWithHeading (blockType paraBlock)).
    + rewrite parseUnitValueToTwips_not_points by assumption.
      now destruct (startsWithHeading (blockType paraBlock)).
Qed.



(** X24. No paragraph of the body refers to a style that is missing: the
    style of every paragraph, [NormalParcelStyle] or [Caption], is
    defined in the registry of paragraph styles that [generateDocx] puts
    in the same document. *)
Theorem body_styles_are_defined
    (target : TargetApplication) (blocks : list FormattedBlock) :
  Forall (styleDefined target) (createDocumentContent target blocks).
Proof.
  unfold createDocumentContent. apply Forall_forall. intros e Hin.
  apply in_flat_map in Hin as [b [_ Hin]]. destruct b as [pb|tb].
  - unfold paragraphContent in Hin. destruct Hin as [<-|[]]. simpl.
    destruct (getHeadingLevelFromBlockType (blockType pb)); [exact I|].
    destruct target; simpl; tauto.
  - unfold tableContent in Hin. apply in_app_iff in Hin as [Hin|Hin].
    + destruct (caption tb) as [cap|]; [|contradiction].
      destruct (0 <? List.length cap)%nat; [|contradiction].
      destruct Hin as [<-|[]]. destruct target; simpl; tauto.
    + destruct Hin as [<-|[]]. exact I.
Qed.

Lemma parseFloat_percent (ds : jsstring) :
  digitString ds -> 0 <= digitsValue ds < 2 ^ 53 ->
  JSFloat.parseFloat (ds ++ lit "%") = ofZ (digitsValue ds).
Proof.
  intros Hds Hv. destruct (digitString_forallb ds Hds) as [Ht Hd].
  destruct ds as [|c0 ds'] eqn:Eds; [discriminate Ht|]. rewrite <- Eds in *.
  assert (Hc0 : isDigit c0 = true)
    by (rewrite Eds in Hd; simpl in Hd; now apply andb_true_iff in Hd).
  destruct (digit_not_space_nor_sign c0 Hc0) as [Hw [Hm Hp]].
  pose proof (proj1 (isDigit_spec c0) Hc0) as Hr.
  unfold JSFloat.parseFloat.
  replace (dropClass isWhiteSpace (ds ++ lit "%")) with (ds ++ lit "%")
    by (rewrite Eds; simpl; now rewrite Hw).
  replace (JSFloat.readSign (ds ++ lit "%")) with (false, ds ++ lit "%")
    by (rewrite Eds; simpl; now rewrite Hm, Hp).
  replace (JSFloat.stripPrefix (lit "Infinity") (ds ++ lit "%")) with (@None jsstring)
    by (rewrite Eds; change (lit "Infinity") with (73 :: lit "nfinity");
        cbn [app JSFloat.stripPrefix];
        replace (73 =? c0) with false by (symmetry; apply Z.eqb_neq; lia);
        reflexivity).
  rewrite (spanClass_stop isDigit ds (lit "%") Hd) by reflexivity.
  cbn [lit list_ascii_of_string map]. simpl (_ =? 46). cbv iota.
  rewrite Ht, app_nil_r. cbn [orb List.length JSFloat.readExponent].
  simpl (_ - _).
  rewrite <- ofDecimal_integer by lia.
  unfold JSFloat.scaled, ofDecimal. destruct (digitsValue ds); reflexivity.
Qed.

(** X25. The width of a table is 100 percent unless its width token ends
    with a percent sign: an absent token and a token in any other unit
    give 100, and the decimal digits of [N] followed by a percent sign
    give [N]. *)
Theorem table_width_percent
    (target : TargetApplication) (tb : FormattedTableBlock) :
  exists w,
    In (BodyTable (docxRows tb target) w) (tableContent target tb)
    /\ (tableWidth tb = None -> toZ w = Some 100)
    /\ (forall s, tableWidth tb = Some s ->
                  JSFloat.endsWith s (lit "%") = false -> toZ w = Some 100)
    /\ (forall N, 0 <= N < 2 ^ 53 ->
                  tableWidth tb = Some (decimalDigits N ++ lit "%") ->
                  toZ w = Some N).
Proof.
  unfold tableContent. eexists. split.
  - apply in_app_iff. right. left. reflexivity.
  - split; [|split].
    + intros ->. reflexivity.
    + intros s -> ->. reflexivity.
    + intros N HN ->. rewrite endsWith_app.
      rewrite parseFloat_percent;
        rewrite ?digitsValue_decimalDigits; try lia;
        [|apply decimalDigits_digitString].
      apply ofZ_exact_upto. lia.
Qed.

(** ** The text of cells and paragraphs *)





(** On the strings [parseUnitValueToTwips] hands to it, the reading of
    decimal literals used there is the reading of [parseFloat]. *)
Lemma parseFloat_on_matched (s m : jsstring) :
  match_decimal_pt s = Some m -> JSFloat.parseFloat m = parseFloat m.
Proof.
  unfold match_decimal_pt.
  destruct (spanClass isDigit s) as [ip rest] eqn:E.
  destruct (spanClass_spec _ _ _ _ E) as [-> Hip].
  destruct (negb (truthy ip)) eqn:Et; [discriminate|].
  apply negb_false_iff in Et.
  destruct ip as [|c0 ip'] eqn:Eip; [discriminate Et|]. rewrite <- Eip in *.
  assert (Hc0 : isDigit c0 = true)
    by (rewrite Eip in Hip; simpl in Hip; now apply andb_true_iff in Hip).
  destruct (digit_not_space_nor_sign c0 Hc0) as [Hw [Hm Hp]].
  pose proof (proj1 (isDigit_spec c0) Hc0) as Hr.
  assert (Hhead : forall tail,
             JSFloat.parseFloat (ip ++ tail)
             = let '(ip1, r1) := spanClass isDigit (ip ++ tail) in
               let '(fp, r2) :=
                 match r1 with
                 | c :: r => if c =? 46 then spanClass isDigit r else ([], r1)
                 | [] => ([], r1)
                 end in
               if truthy ip1 || truthy fp
               then JSFloat.scaled false (digitsValue (ip1 ++ fp))
                      (JSFloat.readExponent r2 - Z.of_nat (List.length fp))
               else S754_nan).
  { intros tail. unfold JSFloat.parseFloat.
    replace (dropClass isWhiteSpace (ip ++ tail)) with (ip ++ tail)
      by (rewrite Eip; simpl; now rewrite Hw).
    replace (JSFloat.readSign (ip ++ tail)) with (false, ip ++ tail)
      by (rewrite Eip; simpl; now rewrite Hm, Hp).
    replace (JSFloat.stripPrefix (lit "Infinity") (ip ++ tail))
      with (@None jsstring)
      by (rewrite Eip; change (lit "Infinity") with (73 :: lit "nfinity");
          cbn [app JSFloat.stripPrefix];
          replace (73 =? c0) with false by (symmetry; apply Z.eqb_neq; lia);
          reflexivity).
    reflexivity. }
  assert (Hscaled : forall n k,
             JSFloat.scaled false n (0 - Z.of_nat k) = ofDecimal n k).
  { intros n k. unfold JSFloat.scaled, ofDecimal.
    destruct n; try reflexivity.
    replace (0 <? 0 - Z.of_nat k) with false
      by (symmetry; apply Z.ltb_ge; lia).
    now replace (- (0 - Z.of_nat k)) with (Z.of_nat k) by lia. }
  destruct (str_eqb rest (lit "pt")) eqn:Ept.
  - intros H. injection H as <-.
    rewrite <- (app_nil_r ip) at 1. rewrite Hhead.
    unfold parseFloat. rewrite app_nil_r, (spanClass_all isDigit ip Hip).
    rewrite Et, app_nil_r. cbn [orb List.length JSFloat.readExponent].
    rewrite (Hscaled _ 0%nat). rewrite Eip. reflexivity.
  - destruct rest as [|c rest']; [discriminate|].
    destruct (Z.eqb_spec c 46) as [->|]; [|discriminate].
    destruct (spanClass isDigit rest') as [fp rest''] eqn:E'.
    destruct (spanClass_spec _ _ _ _ E') as [-> Hfp].
    destruct (truthy fp && str_eqb rest'' (lit "pt")) eqn:E2; [|discriminate].
    change ([46] ++ fp) with (46 :: fp).
    intros H. injection H as <-. rewrite Hhead. unfold parseFloat.
    assert (Hsp : spanClass isDigit (ip ++ 46 :: fp) = (ip, 46 :: fp))
      by (apply spanClass_stop; [exact Hip | reflexivity]).
    rewrite Hsp. rewrite Z.eqb_refl.
    rewrite (spanClass_all isDigit fp Hfp), Et.
    cbn [orb JSFloat.readExponent]. rewrite Hscaled.
    rewrite Eip. reflexivity.
Qed.
